(** * avherald-scraper: the headline parser of [avherald_scraper.py]

    A shallow embedding of the functions that turn a headline into
    (title, timestamp, airline, aircraft) entries, and the properties of
    the specification checked against them.

    Python [str] values are lists of Unicode code points.  The character
    classes the code uses through the standard library ([str.isspace],
    [str.isalpha], the regular-expression classes [\s], [\d], [\w] and
    [\b]) are written out in full where they are small and stable
    (white space, the ASCII range); what they say about code points
    above U+007F comes from a [UnicodeData] table that every definition
    and theorem is parametric in. *)

From Stdlib Require Import String Ascii DecimalString DecimalNat.
From Stdlib Require Import List NArith ZArith Bool Lia Permutation.
Import ListNotations.

Set Implicit Arguments.

(** ** Python strings *)

Module PyStr.

Definition char := N.
Definition str := list char.

(** An ASCII literal as a [str]. *)
Definition lit (s : string) : str :=
  map N_of_ascii (list_ascii_of_string s).

Fixpoint str_eqb (a b : str) : bool :=
  match a, b with
  | [], [] => true
  | x :: a', y :: b' => N.eqb x y && str_eqb a' b'
  | _, _ => false
  end.

(** [s in collection] for a set, list or dict of strings. *)
Definition mem (s : str) (l : list str) : bool := existsb (str_eqb s) l.

(** [a == b] on lists of strings. *)
Fixpoint strs_eqb (a b : list str) : bool :=
  match a, b with
  | [], [] => true
  | x :: a', y :: b' => str_eqb x y && strs_eqb a' b'
  | _, _ => false
  end.

(** Truthiness of a string or a list: [if s:]. *)
Definition nonempty {A} (l : list A) : bool :=
  match l with [] => false | _ :: _ => true end.

(** [str.isspace] on one code point; also the class [\s] of [re] on [str]
    patterns: U+0009..000D, U+001C..0020, U+0085, U+00A0, U+1680,
    U+2000..200A, U+2028, U+2029, U+202F, U+205F, U+3000. *)
Definition isspace (c : char) : bool :=
  ((9 <=? c) && (c <=? 13) || (28 <=? c) && (c <=? 32)
   || (c =? 133) || (c =? 160) || (c =? 5760)
   || (8192 <=? c) && (c <=? 8202)
   || (c =? 8232) || (c =? 8233) || (c =? 8239) || (c =? 8287)
   || (c =? 12288))%N.

Definition is_ascii_upper (c : char) : bool := ((65 <=? c) && (c <=? 90))%N.
Definition is_ascii_lower (c : char) : bool := ((97 <=? c) && (c <=? 122))%N.
Definition is_ascii_digit (c : char) : bool := ((48 <=? c) && (c <=? 57))%N.
Definition is_ascii_alpha (c : char) : bool := is_ascii_upper c || is_ascii_lower c.

(** [str.lower] on one code point.  Exact on every code point whose
    lower-case form contains an ASCII character: [A-Z], U+0130 (which
    becomes "i" followed by U+0307) and U+212A (the Kelvin sign, which
    becomes "k").  Every other code point is left as it is; its real
    lower-case form is made of code points above U+007F, and the program
    only ever compares lower-cased text with ASCII words or filters it
    down to [a-z0-9], so the difference cannot be observed. *)
Definition lower_char (c : char) : str :=
  if is_ascii_upper c then [c + 32]%N
  else if (c =? 304)%N then [105; 775]%N
  else if (c =? 8490)%N then [107]%N
  else [c].

Definition lower (s : str) : str := flat_map lower_char s.

(** The simple lower-case mapping [re.IGNORECASE] applies to a character of
    the subject before comparing it with a (lower-case) pattern letter;
    the same remark as for [lower_char] applies. *)
Definition sre_lower (c : char) : char :=
  if is_ascii_upper c then (c + 32)%N
  else if (c =? 304)%N then 105%N
  else if (c =? 8490)%N then 107%N
  else c.

(** [str.lstrip], [str.rstrip], [str.strip] for a class of characters. *)
Fixpoint lstrip_by (p : char -> bool) (s : str) : str :=
  match s with
  | [] => []
  | c :: s' => if p c then lstrip_by p s' else s
  end.

Definition rstrip_by (p : char -> bool) (s : str) : str :=
  rev (lstrip_by p (rev s)).

Definition strip_by (p : char -> bool) (s : str) : str :=
  rstrip_by p (lstrip_by p s).

(** [s.strip()] *)
Definition strip (s : str) : str := strip_by isspace s.

(** [s.strip(chars)] *)
Definition strip_chars (chars : str) (s : str) : str :=
  strip_by (fun c => existsb (N.eqb c) chars) s.

(** [s.split()]: the maximal runs of characters that are not white space. *)
Fixpoint split_ws (s : str) : list str :=
  match s with
  | [] => []
  | c :: s' =>
      if isspace c then split_ws s'
      else
        match s' with
        | [] => [[c]]
        | d :: _ =>
            if isspace d then [c] :: split_ws s'
            else
              match split_ws s' with
              | w :: ws => (c :: w) :: ws
              | [] => [[c]]
              end
        end
  end.

(** [sep.join(parts)] *)
Fixpoint join (sep : str) (parts : list str) : str :=
  match parts with
  | [] => []
  | [p] => p
  | p :: rest => p ++ sep ++ join sep rest
  end.

(** [s.startswith(p)] *)
Fixpoint startswith (p s : str) : bool :=
  match p, s with
  | [], _ => true
  | x :: p', y :: s' => N.eqb x y && startswith p' s'
  | _ :: _, [] => false
  end.

(** [p in s] for strings. *)
Fixpoint contains (p s : str) : bool :=
  startswith p s ||
  match s with
  | [] => false
  | _ :: s' => contains p s'
  end.

(** [s.replace(old, empty)] for a non-empty [old]: the occurrences of [old]
    are found from the left, without overlap, and dropped.  [skip] counts
    the characters of a found occurrence still to be dropped. *)
Fixpoint remove_all_aux (old : str) (skip : nat) (s : str) : str :=
  match s with
  | [] => []
  | c :: s' =>
      match skip with
      | S k => remove_all_aux old k s'
      | O =>
          if startswith old s then remove_all_aux old (length old - 1) s'
          else c :: remove_all_aux old 0 s'
      end
  end.

Definition remove_all (old s : str) : str := remove_all_aux old 0 s.

(** [s.split(",", 1)[0]]: what precedes the first occurrence of [c]. *)
Fixpoint before_first (c : char) (s : str) : str :=
  match s with
  | [] => []
  | x :: s' => if N.eqb x c then [] else x :: before_first c s'
  end.

(** [str(n)] for a natural number. *)
Definition decimal (n : nat) : str :=
  lit (NilEmpty.string_of_uint (Nat.to_uint n)).

End PyStr.
Export PyStr.

(** ** The Unicode character database

    What the standard library says about code points above U+007F:
    [str.isalpha], the word characters [\w] of [re] (they decide [\b])
    and the decimal digits [\d] with the value [int] gives them.  The
    tables are consulted for such code points only. *)

Class UnicodeData := {
  uni_isalpha : char -> bool;
  uni_isword : char -> bool;
  uni_decimal : char -> option Z
}.

(** A table with no letters, word characters or digits outside ASCII;
    the examples, whose inputs are ASCII, are evaluated with it. *)
Definition ascii_only : UnicodeData :=
  {| uni_isalpha := fun _ => false;
     uni_isword := fun _ => false;
     uni_decimal := fun _ => None |}.

(** ** Static reference data *)

(** [aircraft_models.AIRCRAFT_MODEL_NAMES] *)
Definition AIRCRAFT_MODEL_NAMES : list str := map lit [
    (* Airbus narrow-body *)
    "A318"; "A319"; "A319neo"; "A320"; "A320neo"; "A321"; "A321neo";
    "A20N"; "A21N"; "A220"; "A220-100"; "A220-300"; "A221"; "A223";
    (* Airbus wide-body *)
    "A300"; "A300-600"; "A306"; "A310"; "A330"; "A330-200"; "A330-300";
    "A330-800"; "A330-900"; "A332"; "A333"; "A338"; "A339";
    "A340"; "A340-200"; "A340-300"; "A340-500"; "A340-600";
    "A342"; "A343"; "A345"; "A346";
    "A350"; "A350-900"; "A350-1000"; "A359"; "A35K";
    "A380"; "A380-800"; "A388";
    (* Boeing narrow-body *)
    "B707"; "B712"; "B717"; "B720"; "B721"; "B722"; "B727";
    "B731"; "B732"; "B733"; "B734"; "B735"; "B736"; "B737";
    "B737-200"; "B737-300"; "B737-400"; "B737-500"; "B737-600";
    "B737-700"; "B737-800"; "B737-900";
    "B738"; "B739"; "B73H"; "B73M"; "B37M"; "B38M"; "B39M";
    (* Boeing wide-body *)
    "B741"; "B742"; "B743"; "B744"; "B747-200"; "B747-300"; "B747-400";
    "B747-8"; "B748";
    "B752"; "B753"; "B757-200"; "B757-300";
    "B762"; "B763"; "B764"; "B767-200"; "B767-300"; "B767-400";
    "B772"; "B773"; "B77L"; "B77W"; "B777-200"; "B777-300";
    "B788"; "B789"; "B78X"; "B787-8"; "B787-9"; "B787-10";
    (* McDonnell Douglas / Douglas *)
    "DC8"; "DC-8"; "DC9"; "DC-9"; "DC10"; "DC-10";
    "MD10"; "MD11";
    "MD80"; "MD81"; "MD82"; "MD83"; "MD87"; "MD88"; "MD90";
    (* Embraer & regional jets *)
    "ERJ135"; "ERJ140"; "ERJ145";
    "E135"; "E140"; "E145";
    "E170"; "E175"; "E190"; "E195";
    "E170-E2"; "E190-E2"; "E195-E2";
    "EMB-110"; "EMB110"; "EMB-120"; "EMB120";
    (* Bombardier / De Havilland Canada *)
    "CRJ1"; "CRJ2"; "CRJ-200"; "CRJ7"; "CRJ-700"; "CRJ9"; "CRJ-900";
    "CRJ10"; "CRJ-1000"; "CRJX";
    "DHC-6"; "DHC-7"; "DHC-8";
    "DH8A"; "DH8B"; "DH8C"; "DH8D";
    "Q100"; "Q200"; "Q300"; "Q400";
    (* ATR *)
    "ATR 42"; "ATR-42"; "ATR42";
    "ATR 72"; "ATR-72"; "ATR72";
    "AT45"; "AT46"; "AT72"; "AT75"; "AT76";
    (* Fokker *)
    "F27"; "F28"; "F50"; "F70"; "F100";
    (* British Aerospace / Avro *)
    "BAE 146"; "BAE-146"; "RJ70"; "RJ85"; "RJ100";
    "Avro RJ85"; "Avro RJ100";
    (* Saab / Fairchild Dornier *)
    "SF34"; "SAAB 340"; "SAAB 2000";
    "Do 228"; "Do 328"; "Dornier 228"; "Dornier 328"; "328JET";
    (* Shorts *)
    "SH33"; "SH36"; "Short 330"; "Short 360";
    (* Beechcraft / Cessna / Piper / Pilatus / misc GA *)
    "BE20"; "BE30"; "BE35"; "BE36"; "BE99"; "B190"; "B200";
    "C152"; "C172"; "C182"; "C185"; "C188";
    "C206"; "C208"; "C210"; "C310"; "C340"; "C402"; "C404";
    "C414"; "C421"; "C425"; "C441";
    "PA-23"; "PA-28"; "PA-31"; "PA-34"; "PA-42"; "PA-46";
    "PC-6"; "PC-7"; "PC-9"; "PC-12"; "PC12";
    "SR20"; "SR22";
    "DA40"; "DA42"; "DA62";
    "TBM700"; "TBM-700"; "TBM850"; "TBM900";
    (* Helicopters & tilt-rotor (common mentions) *)
    "AS350"; "AS355"; "EC120"; "EC130"; "EC135"; "EC145";
    "EC155"; "EC175"; "EC225";
    "BK117"; "BO105";
    "B212"; "B412"; "B429";
    "S61"; "S76"; "S92";
    "AW109"; "AW139"; "AW169"; "AW189";
    "UH-60"; "S-70";
    (* Soviet / Russian / Chinese types *)
    "AN2"; "AN12"; "AN24"; "AN26"; "AN28"; "AN30"; "AN32";
    "AN72"; "AN124"; "AN140"; "AN148";
    "IL18"; "IL62"; "IL76"; "IL86"; "IL96";
    "TU134"; "TU154"; "TU204";
    "Yak-40"; "Yak-42";
    "Superjet 100"; "SSJ100";
    "MA60"; "MA600"; "ARJ21"; "C919";
    (* Misc popular models *)
    "BN2"; "BN-2"; "Islander"; "Trislander";
    "JS31"; "JS32"; "JS41";
    "L410"; "Let 410";
    "Metro III"; "Metro 23"; "SW3"; "SW4";
    "King Air"; "Twin Otter"; "Grand Caravan"
  ]%string.

(** [AIRCRAFT_KEYWORDS] *)
Definition AIRCRAFT_KEYWORDS : list str := map lit [
    "aerospatiale"; "agusta"; "airbus"; "airtractor"; "antonov"; "atr";
    "avro"; "bae"; "beechcraft"; "bell"; "boeing"; "bombardier";
    "britten"; "caravan"; "cessna"; "dash"; "challenger"; "cirrus";
    "citation"; "comac"; "crj"; "dassault"; "diamond"; "dhc"; "dornier";
    "douglas"; "embraer"; "falcon"; "fairchild"; "fokker"; "gulfstream";
    "helicopter"; "ilyushin"; "learjet"; "let"; "lockheed"; "mcdonnell";
    "mitsubishi"; "mooney"; "otter"; "pilatus"; "piper"; "robinson";
    "saab"; "sikorsky"; "sukhoi"; "superjet"; "tecnam"; "tupolev";
    "ultralight"; "yakovlev"
  ]%string.

(** [AIRCRAFT_MULTIWORD_PATTERNS] *)
Definition AIRCRAFT_MULTIWORD_PATTERNS : list (list str) :=
  [ [lit "king"; lit "air"];
    [lit "twin"; lit "otter"];
    [lit "grand"; lit "caravan"];
    [lit "britten"; lit "norman"] ].

(** [AIRCRAFT_STOPWORDS] *)
Definition AIRCRAFT_STOPWORDS : list str := map lit [
    "enroute"; "en-route"; "inflight"; "taxi"; "taxiing"; "departing";
    "departed"; "arrival"; "arriving"; "landing"; "takeoff"; "take-off";
    "climbed"; "descending"; "descended"; "without"; "with"; "after";
    "before"; "during"; "from"; "to"; "over"; "near"; "at"; "on"; "while";
    "when"; "and"; "due"; "because"; "following"; "shortly"; "short";
    "long"; "approach"; "runway"; "stand"; "gate"
  ]%string.

(** [_AIRCRAFT_MODEL_MAX_TOKENS] *)
Definition _AIRCRAFT_MODEL_MAX_TOKENS : nat := 6.

(** [SECONDARY_TITLE_PREFIX = "[标记"]: "[", U+6807, U+8BB0. *)
Definition SECONDARY_TITLE_PREFIX : str := [91; 26631; 35760]%N.

(** [_TOKEN_STRIP_CHARS] *)
Definition _TOKEN_STRIP_CHARS : str := lit " ,.;()/[]{}".

Definition Unknown : str := lit "Unknown".

(** ** Token normalizer *)

Definition _normalize_aircraft_token (token : str) : str :=
  strip_chars _TOKEN_STRIP_CHARS token.

(** [re.sub(r'[^a-z0-9]', '', text.lower())] *)
Definition _normalize_model_key (text : str) : str :=
  filter (fun c => is_ascii_lower c || is_ascii_digit c) (lower text).

(** The keys of the dict [_AIRCRAFT_MODEL_LOOKUP]; only membership of a
    key is ever asked of it. *)
Definition _AIRCRAFT_MODEL_LOOKUP : list str :=
  Eval vm_compute in map _normalize_model_key AIRCRAFT_MODEL_NAMES.

Definition _tokens_are_manufacturers (tokens : list str) : bool :=
  match tokens with
  | [] => false
  | _ =>
      forallb
        (fun token =>
           let stripped := lower (_normalize_aircraft_token token) in
           nonempty stripped && mem stripped AIRCRAFT_KEYWORDS)
        tokens
  end.

(** The residue [alphanumeric] is made of [A-Za-z0-9] only, where
    [str.isalpha] and [str.isdigit] are the ASCII classes. *)
Definition _token_matches_aircraft (token : str) : bool :=
  if negb (nonempty token) then false
  else
    let lower_token := lower token in
    if mem lower_token AIRCRAFT_KEYWORDS then true
    else
      let alphanumeric :=
        filter (fun c => is_ascii_alpha c || is_ascii_digit c) token in
      if length alphanumeric <? 3 then false
      else existsb is_ascii_alpha alphanumeric
           && existsb is_ascii_digit alphanumeric.

(** ** Aircraft boundary detector *)

(** [raw[a:b]] *)
Definition slice {A} (l : list A) (a b : nat) : list A :=
  firstn (b - a) (skipn a l).

(** One turn of the loop of [_match_known_aircraft_tokens]: does the run
    of the first [length] sanitized tokens name a catalog entry? *)
Definition run_matches (sanitized_tokens : list str) (length : nat) : bool :=
  let segment := firstn length sanitized_tokens in
  if negb (forallb (@nonempty char) segment) then false
  else
    let key := _normalize_model_key (join (lit " ") segment) in
    mem key _AIRCRAFT_MODEL_LOOKUP.

(** [range(max_len, 0, -1)] *)
Definition range_down (max_len : nat) : list nat := rev (seq 1 max_len).

Definition _match_known_aircraft_tokens (raw_tokens : list str)
  : option (list str) :=
  let sanitized_tokens := map _normalize_aircraft_token raw_tokens in
  let max_len := Nat.min (length sanitized_tokens) _AIRCRAFT_MODEL_MAX_TOKENS in
  match find (run_matches sanitized_tokens) (range_down max_len) with
  | Some length => Some (firstn length raw_tokens)
  | None => None
  end.

(** Truthiness of an optional list: neither [None] nor empty. *)
Definition truthy {A} (o : option (list A)) : bool :=
  match o with
  | Some (_ :: _) => true
  | _ => false
  end.

Definition _find_aircraft_start_by_model (raw_tokens : list str) : option nat :=
  find (fun idx => truthy (_match_known_aircraft_tokens (skipn idx raw_tokens)))
       (seq 0 (length raw_tokens)).

(** The inner loop of the multi-word scan, for one pattern. *)
Definition find_pattern (lowered_tokens : list str) (pattern : list str)
  : option nat :=
  let size := length pattern in
  find (fun idx => strs_eqb (slice lowered_tokens idx (idx + size)) pattern)
       (seq 0 (length lowered_tokens + 1 - size)).

(** The outer loop: the patterns in the order of the list. *)
Fixpoint find_multiword (lowered_tokens : list str) (patterns : list (list str))
  : option nat :=
  match patterns with
  | [] => None
  | pattern :: rest =>
      match find_pattern lowered_tokens pattern with
      | Some idx => Some idx
      | None => find_multiword lowered_tokens rest
      end
  end.

(** [for idx, x in enumerate(l): if p(x): return idx] *)
Fixpoint find_index {A} (p : A -> bool) (l : list A) : option nat :=
  match l with
  | [] => None
  | x :: l' => if p x then Some 0 else option_map S (find_index p l')
  end.

Definition _find_aircraft_start_index
  (raw_tokens stripped_tokens lowered_tokens : list str) : option nat :=
  match _find_aircraft_start_by_model raw_tokens with
  | Some model_index => Some model_index
  | None =>
      match find_multiword lowered_tokens AIRCRAFT_MULTIWORD_PATTERNS with
      | Some idx => Some idx
      | None => find_index _token_matches_aircraft stripped_tokens
      end
  end.

(** ** Trailing-word trimmer *)

Definition is_stopword (token : str) : bool :=
  let stripped := _normalize_aircraft_token token in
  let lowered := lower stripped in
  nonempty stripped && mem lowered AIRCRAFT_STOPWORDS.

(** The loop of [_trim_aircraft_tokens]; [trimmed] is the list built so
    far. *)
Fixpoint trim_loop (trimmed raw_tokens : list str) : list str :=
  match raw_tokens with
  | [] => trimmed
  | token :: rest =>
      if is_stopword token && nonempty trimmed then trimmed
      else trim_loop (trimmed ++ [token]) rest
  end.

Definition _trim_aircraft_tokens (raw_tokens : list str) : list str :=
  match raw_tokens with
  | [] => raw_tokens
  | _ =>
      let known_match := _match_known_aircraft_tokens raw_tokens in
      match known_match with
      | Some (t :: m) => t :: m
      | _ =>
          let trimmed := trim_loop [] raw_tokens in
          if nonempty trimmed then trimmed else raw_tokens
      end
  end.

(** ** Functions that read the Unicode tables *)

Section Parser.

Context {U : UnicodeData}.

(** [c.isalpha()] *)
Definition isalpha (c : char) : bool :=
  if (c <? 128)%N then is_ascii_alpha c else uni_isalpha c.

(** The value [int] gives to a decimal digit; [None] when [c] is not in
    the class [\d]. *)
Definition digit_value (c : char) : option Z :=
  if (c <? 128)%N then
    if is_ascii_digit c then Some (Z.of_N c - 48)%Z else None
  else uni_decimal c.

(** The class [\d] *)
Definition is_d (c : char) : bool :=
  match digit_value c with Some _ => true | None => false end.

(** The class [\w] *)
Definition is_word (c : char) : bool :=
  if (c <? 128)%N then is_ascii_alpha c || is_ascii_digit c || (c =? 95)%N
  else uni_isword c.

(** [\b] between the character [prev] (if any) and the one that follows
    (if any). *)
Definition word_boundary (prev next : option char) : bool :=
  xorb (match prev with Some c => is_word c | None => false end)
       (match next with Some c => is_word c | None => false end).

(** *** Subject segmenter *)

(** A literal of a pattern compiled with [re.IGNORECASE], matched at the
    head of [s]: what follows it, and the last character it consumed. *)
Fixpoint match_ci (pat : str) (last : option char) (s : str)
  : option (option char * str) :=
  match pat with
  | [] => Some (last, s)
  | p :: pat' =>
      match s with
      | [] => None
      | c :: s' => if (sre_lower c =? p)%N then match_ci pat' (Some c) s' else None
      end
  end.

(** The alternatives of [LOCATION_SPLIT_REGEX], in the order of the
    pattern. *)
Definition location_words : list str :=
  map lit ["at"; "near"; "over"; "enroute to"; "en route to"]%string.

(** [\b(?:at|near|over|enroute to|en route to)\b] tried at one position;
    [prev] is the character before it. *)
Definition location_match_here (prev : option char) (s : str) : bool :=
  word_boundary prev (hd_error s) &&
  existsb
    (fun w =>
       match match_ci w None s with
       | Some (last, rest) => word_boundary last (hd_error rest)
       | None => false
       end)
    location_words.

(** [LOCATION_SPLIT_REGEX.search(s)]: the start of the leftmost match. *)
Fixpoint location_search (prev : option char) (idx : nat) (s : str)
  : option nat :=
  if location_match_here prev s then Some idx
  else
    match s with
    | [] => None
    | c :: s' => location_search (Some c) (S idx) s'
    end.

Definition _extract_subject_segment (clean_title : str) : str :=
  if negb (nonempty clean_title) then []
  else
    match location_search None 0 clean_title with
    | Some start => strip (firstn start clean_title)
    | None => strip clean_title
    end.

(** The white space at the head of [s], for a greedy [\s+]: its length
    and what follows. *)
Fixpoint span_ws (s : str) : nat * str :=
  match s with
  | c :: s' => if isspace c then let (n, r) := span_ws s' in (S n, r) else (0, s)
  | [] => (0, [])
  end.

(** [\s+(?:and|&)\s+] with [re.IGNORECASE] tried at the head of [s]: the
    length of the match.  Both runs of white space are taken whole: a
    shorter first run leaves white space before the conjunction, and the
    pattern ends with the second. *)
Definition conjunction_match_here (s : str) : option nat :=
  let (n1, r1) := span_ws s in
  if (n1 =? 0)%nat then None
  else
    let after_word :=
      match match_ci (lit "and") None r1 with
      | Some (_, r2) => Some (3, r2)
      | None =>
          match match_ci (lit "&") None r1 with
          | Some (_, r2) => Some (1, r2)
          | None => None
          end
      end in
    match after_word with
    | Some (k, r2) =>
        let (n2, _) := span_ws r2 in
        if (n2 =? 0)%nat then None else Some (n1 + k + n2)
    | None => None
    end.

(** [SUBJECT_CONJUNCTION_REGEX.split(s)]; [piece] is the piece being
    read and [skip] the characters of a found match still to be passed. *)
Fixpoint conjunction_split (piece : str) (skip : nat) (s : str) : list str :=
  match s with
  | [] => [piece]
  | c :: s' =>
      match skip with
      | S k => conjunction_split piece k s'
      | O =>
          match conjunction_match_here s with
          | Some n => piece :: conjunction_split [] (n - 1) s'
          | None => conjunction_split (piece ++ [c]) 0 s'
          end
      end
  end.

Definition _split_subject_chunks (subject : str) : list str :=
  if negb (nonempty subject) then []
  else
    let chunks := conjunction_split [] 0 subject in
    map (strip_chars (lit " ,;/"))
        (filter (fun chunk => nonempty chunk
                              && nonempty (strip_chars (lit " ,;/") chunk))
                chunks).

(** *** Chunk parser *)

(** [any(char.isalpha() for char in token)] *)
Definition has_alpha (token : str) : bool := existsb isalpha token.

(** Lines 374-388 of [_parse_subject_chunk]: the airline, and the
    aircraft tokens before they are trimmed. *)
Definition assign_tokens (airline_tokens aircraft_tokens : list str)
  : str * list str :=
  let manufacturer_prefix := _tokens_are_manufacturers airline_tokens in
  if manufacturer_prefix then (Unknown, airline_tokens ++ aircraft_tokens)
  else
    let alpha_tokens := filter has_alpha airline_tokens in
    let airline := strip (join (lit " ") alpha_tokens) in
    if negb (nonempty airline) then
      let numeric_prefix_tokens :=
        filter (fun token => negb (has_alpha token)) airline_tokens in
      if nonempty numeric_prefix_tokens
      then (Unknown, numeric_prefix_tokens ++ aircraft_tokens)
      else (Unknown, aircraft_tokens)
    else (airline, aircraft_tokens).

(** Lines 389-390: trimming, joining, and the default. *)
Definition aircraft_of_tokens (aircraft_tokens : list str) : str :=
  let aircraft_tokens := _trim_aircraft_tokens aircraft_tokens in
  let aircraft := strip_chars (lit " ,.;") (join (lit " ") aircraft_tokens) in
  if nonempty aircraft then aircraft else Unknown.

Definition _parse_subject_chunk (chunk : str) : str * str :=
  let raw_tokens := split_ws chunk in
  if negb (nonempty raw_tokens) then (Unknown, Unknown)
  else
    let stripped_tokens := map _normalize_aircraft_token raw_tokens in
    let lowered_tokens := map lower stripped_tokens in
    match _find_aircraft_start_index raw_tokens stripped_tokens lowered_tokens with
    | None => (Unknown, strip chunk)
    | Some aircraft_start =>
        let airline_tokens := firstn aircraft_start raw_tokens in
        let aircraft_tokens := skipn aircraft_start raw_tokens in
        let (airline, aircraft_tokens) :=
          assign_tokens airline_tokens aircraft_tokens in
        (airline, aircraft_of_tokens aircraft_tokens)
    end.

Definition _chunks_are_valid (parsed_chunks : list (str * str)) : bool :=
  if length parsed_chunks <? 2 then false
  else forallb (fun p => negb (str_eqb (snd p) Unknown)) parsed_chunks.

Definition _extract_aircraft_entries (clean_title : str) : list (str * str) :=
  let subject := _extract_subject_segment clean_title in
  if negb (nonempty subject) then [(Unknown, Unknown)]
  else
    let chunks := _split_subject_chunks subject in
    let fallback :=
      [_parse_subject_chunk (if nonempty subject then subject else clean_title)] in
    if nonempty chunks then
      let parsed_chunks := map _parse_subject_chunk chunks in
      if _chunks_are_valid parsed_chunks then parsed_chunks else fallback
    else fallback.

Definition _build_variant_title (original_title airline : str)
  (variant_index : nat) : str :=
  match variant_index with
  | O => original_title
  | _ =>
      let suffix :=
        if negb (str_eqb airline Unknown) then airline
        else lit "#" ++ decimal (variant_index + 1) in
      SECONDARY_TITLE_PREFIX ++ lit " " ++ suffix ++ lit "] " ++ original_title
  end.

(** *** Dates *)

(** The regular expressions about dates are written as matchers that take
    what to do with the rest of the text as a continuation and give back
    what the first successful path of the backtracking search leaves
    unread. *)

(** The first alternative that succeeds. *)
Fixpoint first_some {A} (alts : list (option A)) : option A :=
  match alts with
  | [] => None
  | Some a :: _ => Some a
  | None :: rest => first_some rest
  end.

(** [\s+], greedy: the longest run first, then shorter ones. *)
Fixpoint plus_ws {A} (s : str) (k : str -> option A) : option A :=
  match s with
  | c :: s' =>
      if isspace c then
        match plus_ws s' k with
        | Some r => Some r
        | None => k s'
        end
      else None
  | [] => None
  end.

(** A literal, matched exactly. *)
Definition exactly {A} (p s : str) (k : str -> option A) : option A :=
  if startswith p s then k (skipn (length p) s) else None.

(** [\d{n}]: the digits read are handed on with their values, the most
    significant first. *)
Fixpoint digits {A} (n : nat) (acc : Z) (s : str) (k : Z -> str -> option A)
  : option A :=
  match n with
  | O => k acc s
  | S n' =>
      match s with
      | c :: s' =>
          match digit_value c with
          | Some v => digits n' (10 * acc + v)%Z s' k
          | None => None
          end
      | [] => None
      end
  end.

Definition month_names : list str :=
  map lit ["Jan"; "Feb"; "Mar"; "Apr"; "May"; "Jun";
           "Jul"; "Aug"; "Sep"; "Oct"; "Nov"; "Dec"]%string.

Definition ordinal_suffixes : list str :=
  map lit ["st"; "nd"; "rd"; "th"]%string.

(** [DATE_REGEX] tried at the head of [s]:
    [(Jan|...|Dec)\s+\d{1,2}(?:st|nd|rd|th)\s+\d{4}]. *)
Definition date_match_here (s : str) : option str :=
  let year r := plus_ws r (fun r => digits 4 0 r (fun _ r => Some r)) in
  let suffix r := first_some (map (fun suf => exactly suf r year) ordinal_suffixes) in
  let day r :=
    first_some [digits 2 0 r (fun _ r => suffix r);
                digits 1 0 r (fun _ r => suffix r)] in
  first_some (map (fun m => exactly m s (fun r => plus_ws r day)) month_names).

(** [DATE_REGEX.search(s)]: the start of the leftmost match and
    [group(0)]. *)
Fixpoint DATE_REGEX_search (idx : nat) (s : str) : option (nat * str) :=
  match date_match_here s with
  | Some rest => Some (idx, firstn (length s - length rest) s)
  | None =>
      match s with
      | [] => None
      | _ :: s' => DATE_REGEX_search (S idx) s'
      end
  end.

(** [ORDINAL_SUFFIX_REGEX.sub] with the empty replacement, for the pattern
    [(?<=\d)(st|nd|rd|th)]; [after_digit] says whether the character
    before the head of [s] is in [\d]. *)
Fixpoint ORDINAL_SUFFIX_REGEX_sub (after_digit : bool) (s : str) : str :=
  match s with
  | a :: ((b :: s') as t) =>
      if after_digit && mem [a; b] ordinal_suffixes
      then ORDINAL_SUFFIX_REGEX_sub false s'
      else a :: ORDINAL_SUFFIX_REGEX_sub (is_d a) t
  | _ => s
  end.

(** The month names of [%b], lower case, as [_strptime] keeps them (the
    C locale). *)
Definition a_month : list str :=
  map lit ["jan"; "feb"; "mar"; "apr"; "may"; "jun";
           "jul"; "aug"; "sep"; "oct"; "nov"; "dec"]%string.

(** A literal under [re.IGNORECASE]. *)
Definition exactly_ci {A} (p s : str) (k : str -> option A) : option A :=
  match match_ci p None s with
  | Some (_, r) => k r
  | None => None
  end.

Definition in_range (lo hi c : N) : bool := ((lo <=? c) && (c <=? hi))%N.

(** The directive [%d]: [3[0-1]|[1-2]\d|0[1-9]|[1-9]| [1-9]], with the
    value [int] gives to the text matched. *)
Definition strptime_day {A} (s : str) (k : Z -> str -> option A) : option A :=
  first_some
    [ match s with
      | a :: b :: r =>
          if (a =? 51)%N && in_range 48 49 b then k (30 + (Z.of_N b - 48))%Z r
          else None
      | _ => None
      end;
      match s with
      | a :: b :: r =>
          if in_range 49 50 a then
            match digit_value b with
            | Some v => k (10 * (Z.of_N a - 48) + v)%Z r
            | None => None
            end
          else None
      | _ => None
      end;
      match s with
      | a :: b :: r =>
          if (a =? 48)%N && in_range 49 57 b then k (Z.of_N b - 48)%Z r
          else None
      | _ => None
      end;
      match s with
      | a :: r => if in_range 49 57 a then k (Z.of_N a - 48)%Z r else None
      | _ => None
      end;
      match s with
      | a :: b :: r =>
          if (a =? 32)%N && in_range 49 57 b then k (Z.of_N b - 48)%Z r
          else None
      | _ => None
      end ].

(** The months of [a_month] in turn, numbered from [n]. *)
Fixpoint strptime_month {A} (n : Z) (months : list str) (s : str)
  (k : Z -> str -> option A) : option A :=
  match months with
  | [] => None
  | m :: rest =>
      match exactly_ci m s (k n) with
      | Some r => Some r
      | None => strptime_month (n + 1) rest s k
      end
  end.

(** The regular expression [_strptime] builds for ["%b %d %Y"],
    [(?P<b>jan|...|dec)\s+(?P<d>...)\s+(?P<Y>\d\d\d\d)], matched at the
    start of [s]: year, month, day, and the text left unread. *)
Definition strptime_match (s : str) : option (Z * Z * Z * str) :=
  strptime_month 1 a_month s (fun month r =>
    plus_ws r (fun r =>
      strptime_day r (fun day r =>
        plus_ws r (fun r =>
          digits 4 0 r (fun year r => Some (year, month, day, r)))))).

(** [datetime]'s calendar *)
Definition _is_leap (year : Z) : bool :=
  ((year mod 4 =? 0) && (negb (year mod 100 =? 0) || (year mod 400 =? 0)))%Z.

Definition _days_in_month (year month : Z) : Z :=
  if (month =? 2)%Z && _is_leap year then 29%Z
  else nth (Z.to_nat month) [0; 31; 28; 31; 30; 31; 30; 31; 31; 30; 31; 30; 31]%Z 0%Z.

Definition _days_before_year (year : Z) : Z :=
  let y := (year - 1)%Z in (y * 365 + y / 4 - y / 100 + y / 400)%Z.

Definition _days_before_month (year month : Z) : Z :=
  (nth (Z.to_nat month) [0; 0; 31; 59; 90; 120; 151; 181; 212; 243; 273; 304; 334] 0
   + if (2 <? month) && _is_leap year then 1 else 0)%Z.

(** [date(year, month, day).toordinal()] *)
Definition _ymd2ord (year month day : Z) : Z :=
  (_days_before_year year + _days_before_month year month + day)%Z.

(** [datetime.strptime(s, "%b %d %Y")]: the date, or [None] where it
    raises [ValueError] (no match, unconverted data, or a day or a year
    that [date] refuses). *)
Definition strptime (s : str) : option (Z * Z * Z) :=
  match strptime_match s with
  | Some (year, month, day, []) =>
      if ((1 <=? year) && (1 <=? day) && (day <=? _days_in_month year month))%Z
      then Some (year, month, day)
      else None
  | _ => None
  end.

(** [calendar.timegm] of a date at midnight. *)
Definition timegm (year month day : Z) : Z :=
  let days := (_ymd2ord year month 1 - _ymd2ord 1970 1 1 + day - 1)%Z in
  (days * 24 * 60 * 60)%Z.

(** [date_to_timestamp]; [show_details] only prints. *)
Definition date_to_timestamp (date_string : str) : option Z :=
  if negb (nonempty date_string) then None
  else
    let cleaned_date_string := ORDINAL_SUFFIX_REGEX_sub false date_string in
    match strptime cleaned_date_string with
    | Some (year, month, day) => Some (timegm year month day)
    | None => None
    end.

(** *** Title processor *)

Record Entry := {
  title : str;
  timestamp : option Z;
  airline : str;
  aircraft : str
}.

(** Lines 543-546: the text before the first comma. *)
Definition title_for_parsing (title : str) : str :=
  if existsb (N.eqb 44%N) title then strip (before_first 44%N title) else title.

(** Lines 549-563: the timestamp, and the text without the date. *)
Definition extract_date (title_for_parsing : str) : option Z * str :=
  match DATE_REGEX_search 0 title_for_parsing with
  | Some (_, date_str) =>
      let timestamp := date_to_timestamp date_str in
      let date_segment := lit " on " ++ date_str in
      (timestamp, strip (remove_all date_segment title_for_parsing))
  | None => (None, title_for_parsing)
  end.

(** Lines 565-575: the loop over [enumerate(pairs)], from index [idx]. *)
Fixpoint build_entries (title : str) (timestamp : option Z) (idx : nat)
  (pairs : list (str * str)) : list Entry :=
  match pairs with
  | [] => []
  | (airline, aircraft) :: rest =>
      {| title := _build_variant_title title airline idx;
         timestamp := timestamp;
         airline := airline;
         aircraft := aircraft |}
      :: build_entries title timestamp (S idx) rest
  end.

Definition process_title (original_title : str) : list Entry :=
  let title := strip original_title in
  let title_for_parsing := title_for_parsing title in
  let (timestamp, title_for_parsing) := extract_date title_for_parsing in
  let pairs := _extract_aircraft_entries title_for_parsing in
  build_entries title timestamp 0 pairs.

End Parser.

(** ** Around the parser: diagnostics, the store and the page loop *)

(** The exceptions the functions below let escape. *)
Inductive Exception := AvHeraldAccessError | ValueError.

(** The characters [str.splitlines] breaks lines at: U+000A..000D,
    U+001C..001E, U+0085, U+2028, U+2029. *)
Definition is_linebreak (c : char) : bool :=
  ((10 <=? c) && (c <=? 13) || (28 <=? c) && (c <=? 30)
   || (c =? 133) || (c =? 8232) || (c =? 8233))%N.

(** [s.splitlines()]; [line] is the line being read.  A carriage return
    followed by a line feed is one break, and a break that ends the text
    opens no further line. *)
Fixpoint splitlines_from (line : str) (s : str) : list str :=
  match s with
  | [] => if nonempty line then [line] else []
  | c :: s' =>
      if is_linebreak c then
        line ::
        match s' with
        | d :: s'' =>
            if (c =? 13)%N && (d =? 10)%N then splitlines_from [] s''
            else splitlines_from [] s'
        | [] => []
        end
      else splitlines_from (line ++ [c]) s'
  end.

Definition splitlines (s : str) : list str := splitlines_from [] s.

(** [l[:n]] for an integer [n]: a negative [n] counts from the end. *)
Definition slice_to {A} (l : list A) (n : Z) : list A :=
  if (0 <=? n)%Z then firstn (Z.to_nat n) l
  else firstn (length l - Z.to_nat (- n)) l.

Definition _format_response_preview (response_text : str) (max_lines : Z) : str :=
  if negb (nonempty response_text) then lit "<empty response>"
  else
    let lines := splitlines response_text in
    let preview := join [10%N] (slice_to lines max_lines) in
    if (max_lines <? Z.of_nat (length lines))%Z
    then preview ++ [10%N] ++ lit "..."
    else preview.

(** The [block_indicators] of [_ensure_not_blocked]. *)
Definition block_indicators : list str :=
  map lit ["Your IP address";
           "has been used for unauthorized accesses";
           "therefore blocked"]%string.

(** [_ensure_not_blocked]: the exception raised, if any. *)
Definition _ensure_not_blocked (response_text : str) : option Exception :=
  let lower_text := lower response_text in
  if forallb (fun phrase => contains (lower phrase) lower_text) block_indicators
  then Some AvHeraldAccessError
  else None.

(** [_DESIRED_INCIDENT_COLUMNS] *)
Definition _DESIRED_INCIDENT_COLUMNS : list str :=
  map lit ["category"; "title"; "airline"; "aircraft"; "timestamp"; "url"]%string.

(** [set(a) == set(b)] for lists of strings. *)
Definition set_eqb (a b : list str) : bool :=
  forallb (fun x => mem x b) a && forallb (fun x => mem x a) b.

Definition _has_desired_incident_schema (columns : list str) : bool :=
  let desired := _DESIRED_INCIDENT_COLUMNS in
  if negb (nonempty columns) then false
  else if strs_eqb columns desired then true
  else (length columns =? length desired) && set_eqb columns desired.

(** The [incidents] table, as [create_table_if_not_exists] makes it: six
    columns, [title] unique. *)
Module Store.

(** A row of the table, and the dict [scrape_single_page] builds for
    it. *)
Record Incident := {
  category : str;
  title : str;
  airline : str;
  aircraft : str;
  timestamp : option Z;
  url : str
}.

(** The rows, oldest first. *)
Definition Table := list Incident.

(** [INSERT OR IGNORE INTO incidents ... VALUES ...] with its
    [rowcount]: the row is added unless a row with the same title is
    there. *)
Definition insert_or_ignore (conn : Table) (row : Incident) : Table * nat :=
  if existsb (fun r => str_eqb (title r) (title row)) conn then (conn, 0)
  else (conn ++ [row], 1).

Definition insert_incident (conn : Table) (incident : Incident) : Table * bool :=
  if str_eqb (lower (category incident)) (lit "news") then (conn, false)
  else
    let (conn, rowcount) := insert_or_ignore conn incident in
    (conn, rowcount =? 1).

(** The loop of [insert_incidents], with its two counters. *)
Fixpoint insert_incidents_from (conn : Table) (inserted skipped : nat)
  (incidents : list Incident) : Table * (nat * nat) :=
  match incidents with
  | [] => (conn, (inserted, skipped))
  | incident :: rest =>
      let (conn, done) := insert_incident conn incident in
      if done then insert_incidents_from conn (inserted + 1) skipped rest
      else insert_incidents_from conn inserted (skipped + 1) rest
  end.

Definition insert_incidents (conn : Table) (incidents : list Incident)
  : Table * (nat * nat) :=
  insert_incidents_from conn 0 0 incidents.

(** The titles of the rows. *)
Definition titles (conn : Table) : list str := map title conn.

(** An incident of the category "news", in any letter case. *)
Definition is_news (incident : Incident) : bool :=
  str_eqb (lower (category incident)) (lit "news").

End Store.

(** [os.path.basename] of [posixpath]: what follows the last "/". *)
Definition basename (p : str) : str := rev (before_first 47%N (rev p)).

(** [s.endswith(suffix)] *)
Definition endswith (suffix s : str) : bool := startswith (rev suffix) (rev s).

(** Lines 668-676 of [scrape_single_page]: the category an icon stands
    for. *)
Definition category_of_icon (src : str) : str :=
  let filename := basename src in
  if endswith (lit ".gif") (lower filename)
  then firstn (length filename - 4) filename
  else filename.

Section Pages.

Context {U : UnicodeData}.

(** Lines 678-697 of [scrape_single_page]: the incidents of one headline,
    given its category and its absolute URL. *)
Definition headline_incidents (category absolute_url headline_text : str)
  : list Store.Incident :=
  let original_title := strip headline_text in
  let parsed_entries := process_title original_title in
  map (fun entry =>
         {| Store.category := category;
            Store.title := title entry;
            Store.airline := airline entry;
            Store.aircraft := aircraft entry;
            Store.timestamp := timestamp entry;
            Store.url := absolute_url |})
      parsed_entries.

(** What [scrape_single_page] does for a URL, from outside: [None] when
    it raises [AvHeraldAccessError], else the incidents of the page and
    the URL of the next page, if any. *)
Variable scrape_single_page : str -> option (list Store.Incident * option str).

(** What a run of [scrape] leaves: the table, the counter, the URLs
    asked for, the pauses made, and the exception that ended it, if
    any. *)
Record Run := {
  conn : Store.Table;
  pages_scraped : nat;
  requested : list str;
  pauses : nat;
  raised : option Exception
}.

(** The loop of [scrape].  [remaining] is [max_pages_to_scrape -
    pages_scraped]: the loop goes on while it is positive and
    [current_url] is neither [None] nor empty.  [time.sleep] raises
    [ValueError] for a negative delay. *)
Fixpoint scrape_loop (remaining : nat) (request_delay_seconds : Z)
  (current_url : option str) (run : Run) : Run :=
  match remaining, current_url with
  | S remaining', Some ((_ :: _) as url) =>
      match scrape_single_page url with
      | None =>
          {| conn := conn run;
             pages_scraped := pages_scraped run;
             requested := requested run ++ [url];
             pauses := pauses run;
             raised := Some AvHeraldAccessError |}
      | Some (incidents_on_page, next_url) =>
          let conn' :=
            if nonempty incidents_on_page
            then fst (Store.insert_incidents (conn run) incidents_on_page)
            else conn run in
          let run' pauses raised :=
            {| conn := conn';
               pages_scraped := pages_scraped run + 1;
               requested := requested run ++ [url];
               pauses := pauses;
               raised := raised |} in
          if truthy next_url && (0 <? remaining') then
            if (request_delay_seconds <? 0)%Z
            then run' (pauses run) (Some ValueError)
            else scrape_loop remaining' request_delay_seconds next_url
                             (run' (pauses run + 1) None)
          else scrape_loop remaining' request_delay_seconds next_url
                           (run' (pauses run) None)
      end
  | _, _ => run
  end.

(** The URLs [reqs] follow one another from [current]: each is the next
    page the page before it names. *)
Fixpoint linked (current : option str) (reqs : list str) : Prop :=
  match reqs with
  | [] => True
  | u :: rest =>
      current = Some u
      /\ match rest with
         | [] => True
         | _ :: _ =>
             exists incidents next,
               scrape_single_page u = Some (incidents, next)
               /\ linked next rest
         end
  end.

(** What a call of the loop, entered with [remaining], [current_url] and
    the run [run0], has done when it leaves the run [r]: the URLs [reqs]
    it asked for and the rows [added] it stored. *)
Definition loop_adds (request_delay_seconds : Z) (remaining : nat)
  (current_url : option str) (run0 r : Run)
  (reqs : list str) (added : Store.Table) : Prop :=
  requested r = requested run0 ++ reqs
  /\ conn r = conn run0 ++ added
  /\ length reqs <= remaining
  /\ pages_scraped run0 <= pages_scraped r
  /\ pages_scraped r <= pages_scraped run0 + length reqs
  /\ (raised r = None -> length reqs = pages_scraped r - pages_scraped run0)
  /\ linked current_url reqs
  /\ (forall row, In row added -> Store.is_news row = false)
  /\ (NoDup (Store.titles (conn run0)) -> NoDup (Store.titles (conn r)))
  /\ (reqs = [] -> r = run0)
  /\ (reqs = [] <-> remaining = 0 \/ truthy current_url = false)
  /\ (raised r = None -> reqs <> [] ->
      pauses r + 1 = pauses run0 + length reqs)
  /\ pauses r <= pauses run0 + (pages_scraped r - pages_scraped run0)
  /\ ((0 <= request_delay_seconds)%Z -> raised r = Some ValueError ->
      raised run0 = Some ValueError).

(** [scrape], from the table at hand and [BASE_URL]. *)
Definition scrape (BASE_URL : str) (table : Store.Table)
  (max_pages_to_scrape request_delay_seconds : Z) : Run :=
  scrape_loop (Z.to_nat max_pages_to_scrape) request_delay_seconds
              (Some BASE_URL)
              {| conn := table; pages_scraped := 0; requested := [];
                 pauses := 0; raised := None |}.

End Pages.

(** * The words of the specification

    The notions the claims are stated with, defined from their wording,
    and the data of the examples. *)

Section Wording.

Context {U : UnicodeData}.

(** A normalized key is in the catalog when it is the key of one of the
    model names. *)
Definition in_catalog (key : str) : Prop :=
  exists name, In name AIRCRAFT_MODEL_NAMES /\ _normalize_model_key name = key.

(** The first [n] tokens name a catalog entry: between one and six tokens,
    each non-empty once normalized, whose normalized forms joined by
    spaces have their key in the catalog. *)
Definition catalog_run (tokens : list str) (n : nat) : Prop :=
  1 <= n <= _AIRCRAFT_MODEL_MAX_TOKENS
  /\ n <= length tokens
  /\ Forall (fun t => _normalize_aircraft_token t <> []) (firstn n tokens)
  /\ in_catalog
       (_normalize_model_key
          (join (lit " ") (map _normalize_aircraft_token (firstn n tokens)))).

(** A catalog run starts at index [i] of the tokens. *)
Definition model_start (raw_tokens : list str) (i : nat) : Prop :=
  exists n, catalog_run (skipn i raw_tokens) n.

(** A token that is a manufacturer or type keyword, or that looks like a
    type code: its alphanumeric residue has at least three characters,
    among them a letter and a digit. *)
Definition keyword_or_type_code (token : str) : Prop :=
  In (lower token) AIRCRAFT_KEYWORDS
  \/ (let residue := filter (fun c => is_ascii_alpha c || is_ascii_digit c) token in
      3 <= length residue
      /\ (exists c, In c residue /\ is_ascii_alpha c = true)
      /\ (exists c, In c residue /\ is_ascii_digit c = true)).

(** A token that, once normalized and lower-cased, is in the stopword
    set. *)
Definition stopword (token : str) : Prop :=
  In (lower (_normalize_aircraft_token token)) AIRCRAFT_STOPWORDS.

(** Where the loop stops in [l]: at its first stopword, or at its end. *)
Definition stop_index (l : list str) : nat :=
  match find_index is_stopword l with
  | Some k => k
  | None => length l
  end.

(** The first stopword after the first token stands at index [k]. *)
Definition first_stop (tokens : list str) (k : nat) : Prop :=
  1 <= k
  /\ (exists t, nth_error tokens k = Some t /\ stopword t)
  /\ forall j t, 1 <= j < k -> nth_error tokens j = Some t -> ~ stopword t.

(** A token that is a manufacturer keyword once normalized and
    lower-cased. *)
Definition manufacturer (token : str) : Prop :=
  In (lower (_normalize_aircraft_token token)) AIRCRAFT_KEYWORDS.

(** A token without any letter. *)
Definition letterless (token : str) : Prop :=
  forall c, In c token -> isalpha c = false.

(** An (airline, aircraft) pair with both fields filled. *)
Definition filled (p : str * str) : Prop := fst p <> [] /\ snd p <> [].

(** The marker of a secondary entry: the airline, or the position when
    the airline is unknown. *)
Definition variant_suffix (airline : str) (position : nat) : str :=
  if str_eqb airline Unknown then lit "#" ++ decimal (position + 1)
  else airline.

(** What [str.replace] by the empty string is to do, from the words of its
    documentation: a text without occurrence of [old] is left as it is;
    otherwise the leftmost occurrence is dropped and the same is done
    with what follows it. *)
Inductive removed_all (old : str) : str -> str -> Prop :=
| removed_none (s : str) :
    contains old s = false -> removed_all old s s
| removed_leftmost (a b b' : str) :
    (forall i, i < length a -> startswith old (skipn i (a ++ old ++ b)) = false) ->
    removed_all old b b' ->
    removed_all old (a ++ old ++ b) (a ++ b').

(** The parsed fields of an entry. *)
Definition fields (e : Entry) : str * str := (airline e, aircraft e).

(** What an entry says besides its title. *)
Definition facts (e : Entry) : option Z * str * str :=
  (timestamp e, airline e, aircraft e).

(** A token as [str.split] gives them: not empty, and without white
    space. *)
Definition spaceless (token : str) : Prop :=
  token <> [] /\ forallb (fun c => negb (isspace c)) token = true.

(** A default for [nth]. *)
Definition blank : Entry :=
  {| title := []; timestamp := None; airline := []; aircraft := [] |}.

(** The two-aircraft headline of the tests. *)
Definition two_aircraft : str :=
  lit "Canada BCS3 and United B38M at San Francisco on Jun 24th 2025, ATC operational error".

End Wording.

(** * Properties *)

(** ** Strings and lists *)

Lemma str_eqb_eq (a b : str) : str_eqb a b = true <-> a = b.
Proof.
  revert b; induction a as [|x a IH]; intros [|y b]; simpl;
    try (split; congruence).
  rewrite andb_true_iff, N.eqb_eq, IH. split.
  - intros [-> ->]; reflexivity.
  - intros E; inversion E; auto.
Qed.

Lemma str_eqb_refl (a : str) : str_eqb a a = true.
Proof. apply str_eqb_eq; reflexivity. Qed.

Lemma str_eqb_neq (a b : str) : str_eqb a b = false <-> a <> b.
Proof.
  rewrite <- str_eqb_eq. destruct (str_eqb a b); split; congruence.
Qed.

Lemma mem_In (s : str) (l : list str) : mem s l = true <-> In s l.
Proof.
  unfold mem. rewrite existsb_exists. split.
  - intros (x & Hx & E). apply str_eqb_eq in E. subst; assumption.
  - intros H. exists s. split; [assumption | apply str_eqb_refl].
Qed.

Lemma nonempty_true {A} (l : list A) : nonempty l = true <-> l <> [].
Proof. destruct l; simpl; split; congruence. Qed.

Lemma nonempty_false {A} (l : list A) : nonempty l = false <-> l = [].
Proof. destruct l; simpl; split; congruence. Qed.

Lemma Unknown_nonempty : Unknown <> [].
Proof. discriminate. Qed.

Lemma startswith_app (p s : str) : startswith p (p ++ s) = true.
Proof.
  induction p as [|x p IH]; simpl; [reflexivity|].
  rewrite N.eqb_refl. exact IH.
Qed.

Lemma startswith_iff (p s : str) :
  startswith p s = true <-> exists r, s = p ++ r.
Proof.
  revert s; induction p as [|x p IH]; intros s; simpl.
  - split; [intros _; exists s; reflexivity | reflexivity].
  - destruct s as [|y s].
    + split; [discriminate | intros [r E]; discriminate].
    + rewrite andb_true_iff, N.eqb_eq, IH. split.
      * intros [-> [r ->]]. exists r; reflexivity.
      * intros [r E]. inversion E; subst. split; [reflexivity | exists r; reflexivity].
Qed.

Lemma contains_startswith (p s : str) :
  startswith p s = true -> contains p s = true.
Proof. intros H. destruct s; simpl; rewrite H; reflexivity. Qed.

Lemma contains_app (p a b : str) : contains p (a ++ p ++ b) = true.
Proof.
  induction a as [|x a IH].
  - rewrite app_nil_l. apply contains_startswith, startswith_app.
  - simpl. rewrite IH. apply orb_true_r.
Qed.

(** *** Stripping *)

Lemma lstrip_by_nil p s : lstrip_by p s = [] <-> forallb p s = true.
Proof.
  induction s as [|c s IH]; simpl; [tauto|].
  destruct (p c); simpl; [exact IH | split; discriminate].
Qed.

Lemma lstrip_by_head p s c t : lstrip_by p s = c :: t -> p c = false.
Proof.
  induction s as [|x s IH]; simpl; [discriminate|].
  destruct (p x) eqn:E; [exact IH | intros H; inversion H; subst; exact E].
Qed.

Lemma lstrip_by_fixed p c t : p c = false -> lstrip_by p (c :: t) = c :: t.
Proof. intros H; simpl; rewrite H; reflexivity. Qed.

Lemma lstrip_by_idem p s : lstrip_by p (lstrip_by p s) = lstrip_by p s.
Proof.
  destruct (lstrip_by p s) as [|c t] eqn:E; [reflexivity|].
  apply lstrip_by_fixed. eapply lstrip_by_head; eassumption.
Qed.

Lemma lstrip_by_snoc p a c :
  p c = false -> lstrip_by p (a ++ [c]) = lstrip_by p a ++ [c].
Proof.
  intros H. induction a as [|x a IH]; simpl.
  - rewrite H; reflexivity.
  - destruct (p x); [exact IH | reflexivity].
Qed.

Lemma rstrip_by_cons p c t :
  p c = false -> rstrip_by p (c :: t) = c :: rstrip_by p t.
Proof.
  intros H. unfold rstrip_by. simpl.
  rewrite lstrip_by_snoc by assumption.
  rewrite rev_app_distr. reflexivity.
Qed.

Lemma rstrip_by_idem p s : rstrip_by p (rstrip_by p s) = rstrip_by p s.
Proof.
  unfold rstrip_by. rewrite rev_involutive, lstrip_by_idem. reflexivity.
Qed.

Lemma strip_by_cases p s :
  (strip_by p s = [] /\ forallb p s = true) \/
  (exists c t, lstrip_by p s = c :: t /\ p c = false
               /\ strip_by p s = c :: rstrip_by p t).
Proof.
  unfold strip_by. destruct (lstrip_by p s) as [|c t] eqn:E.
  - left. split; [reflexivity | apply lstrip_by_nil; assumption].
  - right. exists c, t. pose proof (lstrip_by_head _ _ E) as H.
    split; [reflexivity|]. split; [assumption|].
    apply rstrip_by_cons; assumption.
Qed.

Lemma strip_by_nil p s : strip_by p s = [] <-> forallb p s = true.
Proof.
  destruct (strip_by_cases p s) as [[E H] | (c & t & El & Hc & E)].
  - tauto.
  - rewrite E. split; [discriminate|].
    intros H. apply lstrip_by_nil in H. congruence.
Qed.

Lemma strip_by_idem p s : strip_by p (strip_by p s) = strip_by p s.
Proof.
  destruct (strip_by_cases p s) as [[E H] | (c & t & El & Hc & E)].
  - rewrite E. reflexivity.
  - rewrite E. unfold strip_by at 1. rewrite lstrip_by_fixed by assumption.
    rewrite rstrip_by_cons by assumption. rewrite rstrip_by_idem. reflexivity.
Qed.

Lemma strip_idem s : strip (strip s) = strip s.
Proof. apply strip_by_idem. Qed.

Lemma split_ws_nil s : split_ws s = [] <-> forallb isspace s = true.
Proof.
  induction s as [|c s IH]; simpl; [tauto|].
  destruct (isspace c); simpl; [exact IH|].
  split; [|discriminate].
  destruct s as [|d s']; [discriminate|].
  destruct (isspace d); [discriminate|].
  destruct (split_ws (d :: s')); discriminate.
Qed.

Lemma split_ws_strip s : split_ws s <> [] -> strip s <> [].
Proof.
  intros H E. apply H. apply split_ws_nil. apply strip_by_nil. exact E.
Qed.

Section Properties.

Context {U : UnicodeData}.

(** ** The date converter *)

Lemma date_to_timestamp_Some (s : str) (t : Z) :
  date_to_timestamp s = Some t ->
  exists year month day,
    strptime (ORDINAL_SUFFIX_REGEX_sub false s) = Some (year, month, day)
    /\ t = (86400 * (_ymd2ord year month day - _ymd2ord 1970 1 1))%Z.
Proof.
  unfold date_to_timestamp. destruct (nonempty s); cbn [negb]; [|discriminate].
  destruct (strptime _) as [[[y m] d]|]; [|discriminate].
  intros H; inversion H; subst. exists y, m, d. split; [reflexivity|].
  unfold timegm, _ymd2ord.
  generalize (_days_before_year y + _days_before_month y m)%Z.
  generalize (_days_before_year 1970 + _days_before_month 1970 1)%Z.
  intros; lia.
Qed.

Lemma date_to_timestamp_None (s : str) :
  strptime (ORDINAL_SUFFIX_REGEX_sub false s) = None ->
  date_to_timestamp s = None.
Proof.
  unfold date_to_timestamp. intros ->. destruct (nonempty s); reflexivity.
Qed.

(** C5. [date_to_timestamp] maps "Mar 31st 2025" to 1743379200 and
    "Jan 1st 2020" to 1577836800; it returns [None] for the empty string,
    for "Not a date", and for every text that [strptime] refuses once the
    ordinal suffixes are removed; and every timestamp it returns is
    midnight UTC of the date read: 86400 seconds for each day since
    1 January 1970. *)
Theorem date_to_timestamp_spec :
  date_to_timestamp (lit "Mar 31st 2025") = Some 1743379200%Z
  /\ date_to_timestamp (lit "Jan 1st 2020") = Some 1577836800%Z
  /\ date_to_timestamp [] = None
  /\ date_to_timestamp (lit "Not a date") = None
  /\ (forall s, strptime (ORDINAL_SUFFIX_REGEX_sub false s) = None ->
                date_to_timestamp s = None)
  /\ (forall s t, date_to_timestamp s = Some t ->
        exists year month day,
          strptime (ORDINAL_SUFFIX_REGEX_sub false s) = Some (year, month, day)
          /\ t = (86400 * (_ymd2ord year month day - _ymd2ord 1970 1 1))%Z).
Proof.
  split; [vm_compute; reflexivity|].
  split; [vm_compute; reflexivity|].
  split; [vm_compute; reflexivity|].
  split; [vm_compute; reflexivity|].
  split; [exact date_to_timestamp_None | exact date_to_timestamp_Some].
Qed.

(** ** Every field is filled *)

Lemma assign_tokens_airline (airline_tokens aircraft_tokens : list str) :
  fst (assign_tokens airline_tokens aircraft_tokens) <> [].
Proof.
  unfold assign_tokens.
  destruct (_tokens_are_manufacturers airline_tokens);
    [exact Unknown_nonempty|].
  destruct (nonempty (strip _)) eqn:E; simpl.
  - apply nonempty_true; exact E.
  - destruct (nonempty (filter _ _)); exact Unknown_nonempty.
Qed.

Lemma aircraft_of_tokens_nonempty (aircraft_tokens : list str) :
  aircraft_of_tokens aircraft_tokens <> [].
Proof.
  unfold aircraft_of_tokens.
  destruct (nonempty (strip_chars _ _)) eqn:E.
  - apply nonempty_true; exact E.
  - exact Unknown_nonempty.
Qed.

Lemma _parse_subject_chunk_nonempty (chunk : str) :
  fst (_parse_subject_chunk chunk) <> []
  /\ snd (_parse_subject_chunk chunk) <> [].
Proof.
  unfold _parse_subject_chunk.
  destruct (nonempty (split_ws chunk)) eqn:Et; simpl.
  2: split; exact Unknown_nonempty.
  destruct (_find_aircraft_start_index _ _ _) as [start|]; simpl.
  - pose proof (assign_tokens_airline (firstn start (split_ws chunk))
                                      (skipn start (split_ws chunk))) as H.
    destruct (assign_tokens _ _) as [a toks]; simpl in *.
    split; [exact H | apply aircraft_of_tokens_nonempty].
  - split; [exact Unknown_nonempty|].
    apply split_ws_strip. apply nonempty_true; exact Et.
Qed.

Lemma _extract_aircraft_entries_filled (clean_title : str) :
  _extract_aircraft_entries clean_title <> []
  /\ Forall filled (_extract_aircraft_entries clean_title).
Proof.
  unfold _extract_aircraft_entries.
  set (subject := _extract_subject_segment clean_title).
  destruct (nonempty subject); simpl.
  2: { split; [discriminate|]. repeat constructor; exact Unknown_nonempty. }
  assert (Hfb : forall c, [_parse_subject_chunk c] <> []
                          /\ Forall filled [_parse_subject_chunk c]).
  { intros c. split; [discriminate|].
    constructor; [apply _parse_subject_chunk_nonempty | constructor]. }
  destruct (nonempty (_split_subject_chunks subject)) eqn:Ec; [|apply Hfb].
  destruct (_chunks_are_valid _) eqn:Ev; [|apply Hfb].
  split.
  - apply nonempty_true in Ec.
    destruct (_split_subject_chunks subject); [congruence | discriminate].
  - apply Forall_forall. intros p Hp. apply in_map_iff in Hp.
    destruct Hp as (c & <- & _). apply _parse_subject_chunk_nonempty.
Qed.

Lemma build_entries_pairs title ts idx pairs :
  map (fun e => (airline e, aircraft e)) (build_entries title ts idx pairs)
  = pairs.
Proof.
  revert idx; induction pairs as [|[a b] pairs IH]; intros idx; simpl;
    [reflexivity|].
  rewrite IH. reflexivity.
Qed.

Lemma build_entries_timestamp title ts idx pairs :
  Forall (fun e => timestamp e = ts) (build_entries title ts idx pairs).
Proof.
  revert idx; induction pairs as [|[a b] pairs IH]; intros idx; simpl;
    constructor; [reflexivity | apply IH].
Qed.

Lemma build_entries_nth title ts idx pairs i e :
  nth_error (build_entries title ts idx pairs) i = Some e ->
  exists a b,
    nth_error pairs i = Some (a, b)
    /\ e = {| title := _build_variant_title title a (idx + i);
              timestamp := ts; airline := a; aircraft := b |}.
Proof.
  revert idx i; induction pairs as [|[a b] pairs IH]; intros idx i; simpl.
  - destruct i; discriminate.
  - destruct i as [|i]; simpl.
    + intros H; inversion H; subst. exists a, b.
      rewrite Nat.add_0_r. split; reflexivity.
    + intros H. apply IH in H. destruct H as (a' & b' & Hn & ->).
      exists a', b'. split; [exact Hn|].
      replace (S idx + i) with (idx + S i) by lia. reflexivity.
Qed.

(** The entries [process_title] returns, in terms of the steps of its
    body. *)
Lemma process_title_unfold (original_title : str) :
  process_title original_title
  = build_entries (strip original_title)
      (fst (extract_date (title_for_parsing (strip original_title)))) 0
      (_extract_aircraft_entries
         (snd (extract_date (title_for_parsing (strip original_title))))).
Proof.
  unfold process_title. destruct (extract_date _); reflexivity.
Qed.

(** C1. For every input string (the empty one included) [process_title]
    returns a list of at least one entry, and in every entry the airline
    and the aircraft are non-empty strings.  The embedding is a total
    function: the one exception the code can meet, the [ValueError] of
    [strptime], is the [None] that [date_to_timestamp] turns into a
    missing timestamp. *)
Theorem process_title_entries_filled (raw_title : str) :
  1 <= length (process_title raw_title)
  /\ Forall (fun e => airline e <> [] /\ aircraft e <> [])
            (process_title raw_title).
Proof.
  rewrite process_title_unfold.
  set (ts := fst _). set (text := snd _).
  destruct (_extract_aircraft_entries_filled text) as [Hne Hall].
  set (entries := build_entries _ ts 0 _).
  pose proof (build_entries_pairs (strip raw_title) ts 0
                (_extract_aircraft_entries text)) as Hp.
  fold entries in Hp. split.
  - apply (f_equal (@length _)) in Hp. rewrite length_map in Hp.
    rewrite Hp. destruct (_extract_aircraft_entries text);
      [congruence | simpl; lia].
  - rewrite <- Hp in Hall. rewrite Forall_map in Hall. exact Hall.
Qed.

(** ** Titles *)

Lemma _build_variant_title_secondary (original_title airline : str) (i : nat) :
  0 < i ->
  _build_variant_title original_title airline i
  = SECONDARY_TITLE_PREFIX ++ lit " " ++ variant_suffix airline i
    ++ lit "] " ++ original_title.
Proof.
  intros Hi. destruct i as [|i]; [lia|].
  unfold _build_variant_title, variant_suffix.
  destruct (str_eqb airline Unknown); reflexivity.
Qed.

Lemma process_title_first (raw_title : str) :
  exists e rest,
    process_title raw_title = e :: rest /\ title e = strip raw_title.
Proof.
  rewrite process_title_unfold.
  destruct (_extract_aircraft_entries_filled
              (snd (extract_date (title_for_parsing (strip raw_title)))))
    as [Hne _].
  destruct (_extract_aircraft_entries _) as [|[a b] pairs]; [congruence|].
  simpl. eexists; eexists. split; reflexivity.
Qed.

Lemma process_title_secondary (raw_title : str) (i : nat) (e : Entry) :
  0 < i ->
  nth_error (process_title raw_title) i = Some e ->
  title e
  = SECONDARY_TITLE_PREFIX ++ lit " " ++ variant_suffix (airline e) i
    ++ lit "] " ++ strip raw_title.
Proof.
  intros Hi. rewrite process_title_unfold. intros H.
  apply build_entries_nth in H. destruct H as (a & b & _ & ->). simpl.
  apply _build_variant_title_secondary. exact Hi.
Qed.

(** C3 (amended).  The first entry carries the title with its leading and
    trailing white space stripped, the comma clause included; the entry
    at a position [i > 0] carries the marker, a space, the airline (or
    "#" and [i + 1] when the airline is "Unknown"), "] ", and then that
    same stripped title, which it therefore contains. *)
Theorem process_title_keeps_stripped_title (raw_title : str) :
  (exists e rest,
     process_title raw_title = e :: rest /\ title e = strip raw_title)
  /\ (forall i e,
        0 < i ->
        nth_error (process_title raw_title) i = Some e ->
        title e
        = SECONDARY_TITLE_PREFIX ++ lit " "
          ++ (if str_eqb (airline e) Unknown
              then lit "#" ++ decimal (i + 1) else airline e)
          ++ lit "] " ++ strip raw_title
        /\ contains (strip raw_title) (title e) = true).
Proof.
  split; [apply process_title_first|].
  intros i e Hi H. pose proof (process_title_secondary _ Hi H) as E.
  split; [exact E|]. rewrite E.
  rewrite !app_assoc. rewrite <- (app_nil_r (strip raw_title)) at 2.
  apply contains_app.
Qed.

(** C9.  The prefix is the literal "[标记": "[", U+6807, U+8BB0, the last
    two outside ASCII.  The title of the entry at a position [i > 0] is
    that prefix, a space, the airline (or "#" and [i + 1] when the airline
    is "Unknown"), "] " and the stripped title, so it starts with the
    prefix and a space; the title of the first entry starts so exactly
    when the stripped headline does. *)
Theorem secondary_titles_carry_prefix (raw_title : str) :
  (SECONDARY_TITLE_PREFIX = [91; 26631; 35760]%N
   /\ existsb (fun c => 128 <=? c)%N SECONDARY_TITLE_PREFIX = true)
  /\ (forall i e,
        0 < i ->
        nth_error (process_title raw_title) i = Some e ->
        title e
        = [91; 26631; 35760; 32]%N
          ++ (if str_eqb (airline e) Unknown
              then lit "#" ++ decimal (i + 1) else airline e)
          ++ [93; 32]%N ++ strip raw_title
        /\ startswith (SECONDARY_TITLE_PREFIX ++ lit " ") (title e) = true)
  /\ (forall e,
        nth_error (process_title raw_title) 0 = Some e ->
        title e = strip raw_title
        /\ (startswith (SECONDARY_TITLE_PREFIX ++ lit " ") (title e) = true
            <-> startswith (SECONDARY_TITLE_PREFIX ++ lit " ")
                           (strip raw_title) = true)).
Proof.
  split; [split; reflexivity|]. split.
  - intros i e Hi H. pose proof (process_title_secondary _ Hi H) as E.
    split; [exact E|]. rewrite E.
    rewrite (app_assoc SECONDARY_TITLE_PREFIX). apply startswith_app.
  - intros e H. destruct (process_title_first raw_title) as (e0 & rest & E & T).
    rewrite E in H. simpl in H. inversion H; subst e0.
    rewrite T. split; [reflexivity | tauto].
Qed.

(** ** How many entries *)

Lemma _chunks_are_valid_iff (parsed_chunks : list (str * str)) :
  _chunks_are_valid parsed_chunks = true
  <-> 2 <= length parsed_chunks
      /\ Forall (fun p => snd p <> Unknown) parsed_chunks.
Proof.
  unfold _chunks_are_valid.
  destruct (Nat.ltb_spec (length parsed_chunks) 2) as [Hl | Hl].
  - split; [discriminate | intros [H _]; lia].
  - rewrite forallb_forall, Forall_forall. split.
    + intros H. split; [exact Hl|]. intros p Hp.
      specialize (H p Hp). apply negb_true_iff, str_eqb_neq in H. exact H.
    + intros [_ H] p Hp. apply negb_true_iff, str_eqb_neq. apply H; exact Hp.
Qed.

Lemma process_title_pairs (raw_title : str) :
  map (fun e => (airline e, aircraft e)) (process_title raw_title)
  = _extract_aircraft_entries
      (snd (extract_date (title_for_parsing (strip raw_title)))).
Proof. rewrite process_title_unfold. apply build_entries_pairs. Qed.

(** C2 (amended).  With the subject extracted from the text left after the
    date is removed: when the subject splits into two or more chunks and
    every chunk parses to an aircraft other than "Unknown", there is one
    entry for each chunk, in order; in every other case with a non-empty
    subject there is exactly one entry, the whole subject parsed as one
    chunk; and when the subject is empty there is exactly one entry whose
    airline and aircraft are both "Unknown", nothing being parsed. *)
Theorem process_title_entries_by_chunk (raw_title : str) :
  let text := snd (extract_date (title_for_parsing (strip raw_title))) in
  let subject := _extract_subject_segment text in
  let chunks := _split_subject_chunks subject in
  let parsed := map _parse_subject_chunk chunks in
  let pairs := map (fun e => (airline e, aircraft e)) (process_title raw_title) in
  (subject <> [] ->
   2 <= length chunks ->
   Forall (fun p => snd p <> Unknown) parsed ->
   pairs = parsed)
  /\ (subject <> [] ->
      ~ (2 <= length chunks /\ Forall (fun p => snd p <> Unknown) parsed) ->
      pairs = [_parse_subject_chunk subject])
  /\ (subject = [] -> pairs = [(Unknown, Unknown)]).
Proof.
  intros text subject chunks parsed pairs.
  assert (E : pairs = _extract_aircraft_entries text)
    by apply process_title_pairs.
  unfold _extract_aircraft_entries in E.
  fold subject in E. fold chunks in E. fold parsed in E.
  pose proof (_chunks_are_valid_iff parsed) as V.
  assert (L : length parsed = length chunks) by apply length_map.
  rewrite L in V.
  split; [|split].
  - intros Hs Hl Hf. apply nonempty_true in Hs. rewrite Hs in E. simpl in E.
    assert (Hc : nonempty chunks = true)
      by (destruct chunks; [simpl in Hl; lia | reflexivity]).
    rewrite Hc in E.
    destruct (_chunks_are_valid parsed); [exact E|].
    assert (false = true) by (apply V; split; assumption). discriminate.
  - intros Hs Hn. apply nonempty_true in Hs. rewrite Hs in E. simpl in E.
    destruct (nonempty chunks); [|exact E].
    destruct (_chunks_are_valid parsed); [|exact E].
    exfalso. apply Hn. apply V. reflexivity.
  - intros Hs. rewrite Hs in E. exact E.
Qed.

(** ** Removing the date *)

Lemma remove_all_absent (old s : str) :
  contains old s = false -> remove_all old s = s.
Proof.
  unfold remove_all. induction s as [|c s IH]; simpl; [reflexivity|].
  intros H. apply orb_false_iff in H. destruct H as [H1 H2].
  rewrite H1. f_equal. apply IH. exact H2.
Qed.

Lemma remove_all_aux_skip (old x b : str) :
  remove_all_aux old (length x) (x ++ b) = remove_all_aux old 0 b.
Proof.
  induction x as [|c x IH]; simpl; [reflexivity | exact IH].
Qed.

Lemma remove_all_here (old b : str) :
  old <> [] -> remove_all old (old ++ b) = remove_all old b.
Proof.
  unfold remove_all. destruct old as [|o old']; [congruence|]. intros _.
  change ((o :: old') ++ b) with (o :: (old' ++ b)).
  cbn [remove_all_aux].
  change (o :: old' ++ b) with ((o :: old') ++ b).
  rewrite startswith_app.
  replace (length (o :: old') - 1) with (length old') by (simpl; lia).
  apply remove_all_aux_skip.
Qed.

Lemma remove_all_leftmost (old a b : str) :
  old <> [] ->
  (forall i, i < length a -> startswith old (skipn i (a ++ old ++ b)) = false) ->
  remove_all old (a ++ old ++ b) = a ++ remove_all old b.
Proof.
  intros Ho. induction a as [|c a IH]; intros H.
  - rewrite !app_nil_l. apply remove_all_here; assumption.
  - pose proof (H 0 ltac:(simpl; lia)) as H0. simpl in H0.
    unfold remove_all in *. simpl app. cbn [remove_all_aux].
    rewrite H0. f_equal. apply IH.
    intros i Hi. apply (H (S i)). simpl; lia.
Qed.

Lemma leftmost_occurrence (old s : str) :
  contains old s = true ->
  exists a b,
    s = a ++ old ++ b
    /\ forall i, i < length a -> startswith old (skipn i s) = false.
Proof.
  induction s as [|c s IH]; intros H.
  - simpl in H. rewrite orb_false_r in H. apply startswith_iff in H.
    destruct H as [r E]. exists [], r. split; [exact E | simpl; intros; lia].
  - destruct (startswith old (c :: s)) eqn:Es.
    + apply startswith_iff in Es. destruct Es as [r E].
      exists [], r. split; [exact E | simpl; intros; lia].
    + simpl in H. simpl in Es. rewrite Es in H. simpl in H.
      destruct (IH H) as (a & b & E & Hn).
      exists (c :: a), b. split; [simpl; f_equal; exact E|].
      intros [|i] Hi; [exact Es|]. simpl. apply Hn. simpl in Hi; lia.
Qed.

Lemma remove_all_spec (old : str) :
  old <> [] -> forall s, removed_all old s (remove_all old s).
Proof.
  intros Ho s. remember (length s) as n eqn:En.
  revert s En. induction n as [n IH] using lt_wf_ind. intros s En.
  destruct (contains old s) eqn:Ec.
  - destruct (leftmost_occurrence _ _ Ec) as (a & b & -> & Hn).
    rewrite remove_all_leftmost by assumption.
    apply removed_leftmost; [exact Hn|].
    apply (IH (length b)); [|reflexivity].
    subst n. rewrite !length_app.
    destruct old; [congruence | simpl; lia].
  - rewrite remove_all_absent by assumption. apply removed_none; exact Ec.
Qed.

Lemma title_for_parsing_stripped (raw_title : str) :
  strip (title_for_parsing (strip raw_title))
  = title_for_parsing (strip raw_title).
Proof.
  unfold title_for_parsing.
  destruct (existsb _ _); apply strip_idem.
Qed.

Lemma extract_date_text (text : str) :
  snd (extract_date text)
  = match DATE_REGEX_search 0 text with
    | Some (_, date_str) => strip (remove_all (lit " on " ++ date_str) text)
    | None => text
    end.
Proof.
  unfold extract_date. destruct (DATE_REGEX_search 0 text) as [[i d]|];
    reflexivity.
Qed.

(** C4 (amended).  When the date phrase found in the working text does not
    parse, every entry has no timestamp, and the working text is treated
    as when the date parses: the occurrences of " on " followed by the
    date text are removed from it before the subject is extracted.
    Removal does not wait for the date to parse. *)
Theorem unparsed_date_is_still_removed
  (raw_title : str) (start : nat) (date_str : str) :
  DATE_REGEX_search 0 (title_for_parsing (strip raw_title))
  = Some (start, date_str) ->
  date_to_timestamp date_str = None ->
  Forall (fun e => timestamp e = None) (process_title raw_title)
  /\ process_title raw_title
     = build_entries (strip raw_title) None 0
         (_extract_aircraft_entries
            (strip (remove_all (lit " on " ++ date_str)
                               (title_for_parsing (strip raw_title))))).
Proof.
  intros Hs Hd.
  assert (E : process_title raw_title
              = build_entries (strip raw_title) None 0
                  (_extract_aircraft_entries
                     (strip (remove_all (lit " on " ++ date_str)
                                        (title_for_parsing (strip raw_title)))))).
  { rewrite process_title_unfold. unfold extract_date.
    rewrite Hs. cbn [fst snd]. rewrite Hd. reflexivity. }
  split; [|exact E]. rewrite E. apply build_entries_timestamp.
Qed.

(** C10 (amended).  When a date phrase is found in the working text, the
    text handed to the subject segmenter is the working text with every
    occurrence of " on " followed by the date text removed (leftmost
    first, wherever it stands, not only at the place of the match) and
    then stripped; and when the working text contains no occurrence of
    " on " followed by the date text, nothing is removed: the date text
    stays in the text that is parsed. *)
Theorem date_segment_removed_everywhere
  (raw_title : str) (start : nat) (date_str : str) :
  let text := title_for_parsing (strip raw_title) in
  let date_segment := lit " on " ++ date_str in
  DATE_REGEX_search 0 text = Some (start, date_str) ->
  snd (extract_date text) = strip (remove_all date_segment text)
  /\ removed_all date_segment text (remove_all date_segment text)
  /\ (contains date_segment text = false -> snd (extract_date text) = text).
Proof.
  intros text date_segment Hs.
  assert (E : snd (extract_date text) = strip (remove_all date_segment text)).
  { rewrite extract_date_text, Hs. reflexivity. }
  split; [exact E|]. split.
  - apply remove_all_spec. discriminate.
  - intros Hc. rewrite E, remove_all_absent by assumption.
    apply title_for_parsing_stripped.
Qed.

(** ** Searching for the first and the last index *)

Lemma find_seq_Some (p : nat -> bool) (a n i : nat) :
  find p (seq a n) = Some i
  <-> a <= i < a + n /\ p i = true /\ forall j, a <= j < i -> p j = false.
Proof.
  revert a; induction n as [|n IH]; intros a; simpl.
  - split; [discriminate | intros [H _]; lia].
  - destruct (p a) eqn:Ea.
    + split.
      * intros H; inversion H; subst.
        split; [lia|]. split; [exact Ea|]. intros j Hj; lia.
      * intros (Hr & Hp & Hl). f_equal.
        destruct (Nat.eq_dec a i) as [E | N]; [exact E|].
        rewrite Hl in Ea by lia. discriminate.
    + rewrite IH. split.
      * intros (Hr & Hp & Hl). split; [lia|]. split; [exact Hp|].
        intros j Hj. destruct (Nat.eq_dec j a) as [-> | N]; [exact Ea|].
        apply Hl; lia.
      * intros (Hr & Hp & Hl).
        assert (a <> i) by (intros ->; congruence).
        split; [lia|]. split; [exact Hp|]. intros j Hj; apply Hl; lia.
Qed.

Lemma find_seq_None (p : nat -> bool) (a n : nat) :
  find p (seq a n) = None <-> forall j, a <= j < a + n -> p j = false.
Proof.
  split.
  - intros H j Hj. apply (find_none _ _ H). apply in_seq. lia.
  - intros H. destruct (find p (seq a n)) as [i|] eqn:E; [|reflexivity].
    apply find_seq_Some in E. destruct E as (Hr & Hp & _).
    rewrite H in Hp by lia. discriminate.
Qed.

Lemma range_down_S (n : nat) : range_down (S n) = S n :: range_down n.
Proof.
  unfold range_down. rewrite seq_S, rev_app_distr. reflexivity.
Qed.

Lemma find_range_down_Some (p : nat -> bool) (n L : nat) :
  find p (range_down n) = Some L
  <-> 1 <= L <= n /\ p L = true /\ forall j, L < j <= n -> p j = false.
Proof.
  induction n as [|n IH].
  - simpl. split; [discriminate | intros [H _]; lia].
  - rewrite range_down_S. simpl. destruct (p (S n)) eqn:Ea.
    + split.
      * intros H; inversion H; subst.
        split; [lia|]. split; [exact Ea|]. intros j Hj; lia.
      * intros (Hr & Hp & Hl). f_equal.
        destruct (Nat.eq_dec (S n) L) as [E | N]; [exact E|].
        rewrite Hl in Ea by lia. discriminate.
    + rewrite IH. split.
      * intros (Hr & Hp & Hl). split; [lia|]. split; [exact Hp|].
        intros j Hj. destruct (Nat.eq_dec j (S n)) as [-> | N]; [exact Ea|].
        apply Hl; lia.
      * intros (Hr & Hp & Hl).
        assert (S n <> L) by (intros <-; congruence).
        split; [lia|]. split; [exact Hp|]. intros j Hj; apply Hl; lia.
Qed.

Lemma find_range_down_None (p : nat -> bool) (n : nat) :
  find p (range_down n) = None <-> forall j, 1 <= j <= n -> p j = false.
Proof.
  split.
  - intros H j Hj. apply (find_none _ _ H).
    unfold range_down. rewrite <- in_rev. apply in_seq. lia.
  - intros H. destruct (find p (range_down n)) as [i|] eqn:E; [|reflexivity].
    apply find_range_down_Some in E. destruct E as (Hr & Hp & _).
    rewrite H in Hp by lia. discriminate.
Qed.

Lemma find_index_Some {A} (p : A -> bool) (l : list A) (i : nat) :
  find_index p l = Some i
  <-> (exists x, nth_error l i = Some x /\ p x = true)
      /\ forall j y, j < i -> nth_error l j = Some y -> p y = false.
Proof.
  revert i; induction l as [|x l IH]; intros i; simpl.
  - split; [discriminate|]. intros [(y & H & _) _]. destruct i; discriminate.
  - destruct (p x) eqn:Ex.
    + split.
      * intros H; inversion H; subst. split; [exists x; auto|]. intros; lia.
      * intros [(y & Hn & Hy) Hl]. destruct i as [|i]; [reflexivity|].
        specialize (Hl 0 x ltac:(lia) eq_refl). congruence.
    + destruct (find_index p l) as [k|] eqn:Ek; simpl.
      * split.
        -- intros H; inversion H; subst.
           destruct (proj1 (IH k) eq_refl) as [Hx Hl]. split; [exact Hx|].
           intros [|j] y Hj Hn; simpl in Hn; [congruence|].
           apply (Hl j); [lia | exact Hn].
        -- intros [(y & Hn & Hy) Hl]. destruct i as [|i];
             [simpl in Hn; congruence|].
           assert (E : Some k = Some i); [|inversion E; reflexivity].
           apply IH. split; [exists y; auto|].
           intros j z Hj Hz. apply (Hl (S j)); [lia | exact Hz].
      * split; [discriminate|].
        intros [(y & Hn & Hy) Hl]. destruct i as [|i];
          [simpl in Hn; congruence|].
        assert (None = Some i); [|discriminate].
        apply IH. split; [exists y; auto|].
        intros j z Hj Hz. apply (Hl (S j)); [lia | exact Hz].
Qed.

Lemma find_index_None {A} (p : A -> bool) (l : list A) :
  find_index p l = None <-> forall x, In x l -> p x = false.
Proof.
  induction l as [|x l IH]; simpl.
  - split; [intros _ y [] | reflexivity].
  - destruct (p x) eqn:Ex.
    + split; [discriminate|]. intros H. rewrite H in Ex by auto. discriminate.
    + destruct (find_index p l); simpl.
      * split; [discriminate|]. intros H.
        assert (Some n = None) by (apply IH; auto). discriminate.
      * split; [|reflexivity]. intros _ y [<- | Hy]; [exact Ex|].
        apply IH; [reflexivity | exact Hy].
Qed.

(** ** Catalog runs *)

Lemma lookup_keys :
  _AIRCRAFT_MODEL_LOOKUP = map _normalize_model_key AIRCRAFT_MODEL_NAMES.
Proof. vm_compute; reflexivity. Qed.

Lemma mem_lookup (key : str) :
  mem key _AIRCRAFT_MODEL_LOOKUP = true <-> in_catalog key.
Proof.
  rewrite mem_In, lookup_keys, in_map_iff. unfold in_catalog.
  split; intros (name & H1 & H2); exists name; tauto.
Qed.

Lemma run_matches_iff (tokens : list str) (n : nat) :
  1 <= n <= Nat.min (length tokens) _AIRCRAFT_MODEL_MAX_TOKENS ->
  run_matches (map _normalize_aircraft_token tokens) n = true
  <-> catalog_run tokens n.
Proof.
  intros Hn. unfold run_matches, catalog_run.
  rewrite firstn_map.
  set (run := firstn n tokens).
  assert (Hall : forallb (@nonempty char) (map _normalize_aircraft_token run) = true
                 <-> Forall (fun t => _normalize_aircraft_token t <> []) run).
  { rewrite forallb_forall, Forall_forall. split.
    - intros H t Ht. apply nonempty_true. apply H. apply in_map; exact Ht.
    - intros H t Ht. apply in_map_iff in Ht. destruct Ht as (x & <- & Hx).
      apply nonempty_true. apply H; exact Hx. }
  destruct (forallb _ _) eqn:Ef; cbn [negb].
  - rewrite mem_lookup. split.
    + intros H. split; [lia|]. split; [lia|]. split; [apply Hall; reflexivity | exact H].
    + intros (_ & _ & _ & H); exact H.
  - split; [discriminate|]. intros (_ & _ & H & _).
    apply Hall in H. discriminate.
Qed.

Lemma catalog_run_bound (tokens : list str) (n : nat) :
  catalog_run tokens n ->
  1 <= n <= Nat.min (length tokens) _AIRCRAFT_MODEL_MAX_TOKENS.
Proof. intros (H1 & H2 & _). lia. Qed.

Lemma _match_known_aircraft_tokens_Some (raw_tokens run : list str) :
  _match_known_aircraft_tokens raw_tokens = Some run
  <-> exists L,
        run = firstn L raw_tokens
        /\ catalog_run raw_tokens L
        /\ forall n, catalog_run raw_tokens n -> n <= L.
Proof.
  unfold _match_known_aircraft_tokens. rewrite length_map.
  set (max_len := Nat.min _ _).
  set (p := run_matches _).
  destruct (find p (range_down max_len)) as [L|] eqn:Ef.
  - apply find_range_down_Some in Ef. destruct Ef as (Hr & Hp & Hl).
    assert (HL : catalog_run raw_tokens L) by (apply run_matches_iff; assumption).
    assert (Hmax : forall n, catalog_run raw_tokens n -> n <= L).
    { intros n Hn. destruct (Nat.le_gt_cases n L) as [Hle | Hgt]; [exact Hle|].
      pose proof (catalog_run_bound Hn) as Hb.
      apply run_matches_iff in Hn; [|exact Hb].
      fold p in Hn. rewrite Hl in Hn; [discriminate|]. fold max_len in Hb. lia. }
    split.
    + intros H; inversion H; subst. exists L. auto.
    + intros (L' & -> & HL' & Hmax'). f_equal. f_equal.
      apply Nat.le_antisymm; auto.
  - split; [discriminate|]. intros (L & _ & HL & _).
    pose proof (catalog_run_bound HL) as Hb.
    apply run_matches_iff in HL; [|exact Hb]. fold p in HL.
    rewrite (proj1 (find_range_down_None p max_len) Ef) in HL; [discriminate|].
    exact Hb.
Qed.

Lemma _match_known_aircraft_tokens_None (raw_tokens : list str) :
  _match_known_aircraft_tokens raw_tokens = None
  <-> forall n, ~ catalog_run raw_tokens n.
Proof.
  split.
  - intros H n Hn.
    unfold _match_known_aircraft_tokens in H. rewrite length_map in H.
    destruct (find _ _) eqn:Ef; [discriminate|].
    pose proof (catalog_run_bound Hn) as Hb.
    apply run_matches_iff in Hn; [|exact Hb].
    rewrite (proj1 (find_range_down_None _ _) Ef) in Hn; [discriminate|].
    exact Hb.
  - intros H. destruct (_match_known_aircraft_tokens raw_tokens) as [run|] eqn:E;
      [|reflexivity].
    apply _match_known_aircraft_tokens_Some in E.
    destruct E as (L & _ & HL & _). exfalso. exact (H L HL).
Qed.

Lemma catalog_run_nonempty (tokens : list str) (L : nat) :
  catalog_run tokens L -> exists t m, firstn L tokens = t :: m.
Proof.
  intros (H1 & H2 & _). destruct L as [|L]; [lia|].
  destruct tokens as [|t tokens]; [simpl in H2; lia|].
  simpl. eauto.
Qed.

Lemma truthy_match_known (raw_tokens : list str) :
  truthy (_match_known_aircraft_tokens raw_tokens) = true
  <-> exists n, catalog_run raw_tokens n.
Proof.
  destruct (_match_known_aircraft_tokens raw_tokens) as [run|] eqn:E.
  - apply _match_known_aircraft_tokens_Some in E.
    destruct E as (L & -> & HL & _).
    destruct (catalog_run_nonempty HL) as (t & m & ->). simpl.
    split; [intros _; exists L; exact HL | reflexivity].
  - simpl. split; [discriminate|]. intros [n Hn].
    exfalso. exact (proj1 (_match_known_aircraft_tokens_None _) E n Hn).
Qed.

(** ** The trailing-word trimmer *)

Lemma is_stopword_iff (token : str) :
  is_stopword token = true <-> stopword token.
Proof.
  unfold is_stopword, stopword. rewrite andb_true_iff, mem_In. split.
  - intros [_ H]; exact H.
  - intros H. split; [|exact H].
    destruct (_normalize_aircraft_token token); [|reflexivity].
    apply mem_In in H. vm_compute in H. discriminate.
Qed.

Lemma is_stopword_false (token : str) :
  is_stopword token = false <-> ~ stopword token.
Proof.
  rewrite <- is_stopword_iff. destruct (is_stopword token); split; congruence.
Qed.

Lemma trim_loop_spec (trimmed l : list str) :
  trimmed <> [] ->
  trim_loop trimmed l = trimmed ++ firstn (stop_index l) l.
Proof.
  revert trimmed; induction l as [|t l IH]; intros trimmed Hne.
  - simpl. rewrite app_nil_r. reflexivity.
  - unfold stop_index. simpl.
    destruct (is_stopword t) eqn:Et.
    + apply nonempty_true in Hne. rewrite Hne. simpl.
      rewrite app_nil_r. reflexivity.
    + simpl. rewrite IH by (destruct trimmed; discriminate).
      rewrite <- app_assoc. simpl. unfold stop_index.
      destruct (find_index is_stopword l); reflexivity.
Qed.

Lemma _trim_aircraft_tokens_loop (t0 : str) (rest : list str) :
  (forall n, ~ catalog_run (t0 :: rest) n) ->
  _trim_aircraft_tokens (t0 :: rest)
  = firstn (S (stop_index rest)) (t0 :: rest).
Proof.
  intros H. apply _match_known_aircraft_tokens_None in H.
  unfold _trim_aircraft_tokens. rewrite H.
  cbn [trim_loop nonempty andb app]. rewrite andb_false_r.
  rewrite trim_loop_spec by discriminate. reflexivity.
Qed.

(** C8.  For a non-empty token list: when some prefix of up to six tokens
    names a catalog entry, the result is the longest such prefix and
    nothing after it; otherwise it is the prefix that ends just before
    the first stopword standing after at least one token, and the whole
    list when there is no such stopword; and it is never empty. *)
Theorem _trim_aircraft_tokens_spec (tokens : list str) :
  tokens <> [] ->
  ((exists n, catalog_run tokens n) ->
   exists L,
     catalog_run tokens L
     /\ (forall n, catalog_run tokens n -> n <= L)
     /\ _trim_aircraft_tokens tokens = firstn L tokens)
  /\ ((forall n, ~ catalog_run tokens n) ->
      (forall k, first_stop tokens k ->
                 _trim_aircraft_tokens tokens = firstn k tokens)
      /\ ((forall j t, 1 <= j -> nth_error tokens j = Some t -> ~ stopword t) ->
          _trim_aircraft_tokens tokens = tokens))
  /\ _trim_aircraft_tokens tokens <> [].
Proof.
  intros Hne. destruct tokens as [|t0 rest]; [congruence|]. clear Hne.
  assert (Hcat : (exists n, catalog_run (t0 :: rest) n) ->
                 exists L,
                   catalog_run (t0 :: rest) L
                   /\ (forall n, catalog_run (t0 :: rest) n -> n <= L)
                   /\ _trim_aircraft_tokens (t0 :: rest) = firstn L (t0 :: rest)).
  { intros Hex. apply truthy_match_known in Hex.
    destruct (_match_known_aircraft_tokens (t0 :: rest)) as [run|] eqn:E;
      [|discriminate].
    pose proof E as E'. apply _match_known_aircraft_tokens_Some in E'.
    destruct E' as (L & -> & HL & Hmax). exists L.
    split; [exact HL|]. split; [exact Hmax|].
    unfold _trim_aircraft_tokens. rewrite E.
    destruct (catalog_run_nonempty HL) as (t & m & ->). reflexivity. }
  split; [exact Hcat|]. split.
  - intros Hno. rewrite (_trim_aircraft_tokens_loop Hno). split.
    + intros k (Hk & (t & Ht & Hs) & Hfirst).
      destruct k as [|k]; [lia|]. simpl in Ht.
      assert (E : find_index is_stopword rest = Some k).
      { apply find_index_Some. split.
        - exists t. split; [exact Ht | apply is_stopword_iff; exact Hs].
        - intros j y Hj Hy. apply is_stopword_false.
          apply (Hfirst (S j)); [lia | exact Hy]. }
      unfold stop_index. rewrite E. reflexivity.
    + intros Hnone.
      assert (E : find_index is_stopword rest = None).
      { apply find_index_None. intros x Hx. apply is_stopword_false.
        apply In_nth_error in Hx. destruct Hx as [j Hj].
        apply (Hnone (S j)); [lia | exact Hj]. }
      unfold stop_index. rewrite E. simpl. rewrite firstn_all. reflexivity.
  - destruct (_match_known_aircraft_tokens (t0 :: rest)) as [run|] eqn:E.
    + destruct Hcat as (L & HL & _ & ->).
      * apply truthy_match_known. rewrite E.
        apply _match_known_aircraft_tokens_Some in E.
        destruct E as (L & -> & HL & _).
        destruct (catalog_run_nonempty HL) as (t & m & ->). reflexivity.
      * destruct (catalog_run_nonempty HL) as (t & m & ->). discriminate.
    + pose proof (proj1 (_match_known_aircraft_tokens_None _) E) as Hno.
      rewrite (_trim_aircraft_tokens_loop Hno). discriminate.
Qed.

(** ** The boundary detector *)

Lemma model_start_bound (raw_tokens : list str) (i : nat) :
  model_start raw_tokens i -> i < length raw_tokens.
Proof.
  intros (n & H1 & H2 & _). rewrite length_skipn in H2. lia.
Qed.

Lemma _find_aircraft_start_by_model_Some (raw_tokens : list str) (i : nat) :
  _find_aircraft_start_by_model raw_tokens = Some i
  <-> model_start raw_tokens i
      /\ forall j, j < i -> ~ model_start raw_tokens j.
Proof.
  unfold _find_aircraft_start_by_model. rewrite find_seq_Some. split.
  - intros (Hr & Hp & Hl). split; [apply truthy_match_known; exact Hp|].
    intros j Hj Hm. apply truthy_match_known in Hm.
    rewrite Hl in Hm by lia. discriminate.
  - intros (Hm & Hl). pose proof (model_start_bound Hm) as Hb.
    split; [lia|]. split; [apply truthy_match_known; exact Hm|].
    intros j Hj.
    destruct (truthy (_match_known_aircraft_tokens (skipn j raw_tokens))) eqn:E;
      [|reflexivity].
    apply truthy_match_known in E. exfalso. apply (Hl j); [lia | exact E].
Qed.

Lemma _find_aircraft_start_by_model_None (raw_tokens : list str) :
  _find_aircraft_start_by_model raw_tokens = None
  <-> forall j, ~ model_start raw_tokens j.
Proof.
  unfold _find_aircraft_start_by_model. rewrite find_seq_None. split.
  - intros H j Hm. pose proof (model_start_bound Hm) as Hb.
    apply truthy_match_known in Hm. rewrite H in Hm by lia. discriminate.
  - intros H j Hj.
    destruct (truthy (_match_known_aircraft_tokens (skipn j raw_tokens))) eqn:E;
      [|reflexivity].
    apply truthy_match_known in E. exfalso. exact (H j E).
Qed.

Lemma _token_matches_aircraft_iff (token : str) :
  _token_matches_aircraft token = true <-> keyword_or_type_code token.
Proof.
  unfold _token_matches_aircraft, keyword_or_type_code.
  destruct token as [|c token].
  - cbn [nonempty negb]. split; [discriminate|].
    intros [H | (H & _)]; [|simpl in H; lia].
    change (lower []) with (@nil char) in H.
    apply mem_In in H. vm_compute in H. discriminate.
  - cbn [nonempty negb]. cbv zeta.
    set (tok := c :: token).
    set (residue := filter _ tok).
    destruct (mem (lower tok) AIRCRAFT_KEYWORDS) eqn:Em.
    + split; [intros _; left; apply mem_In; exact Em | reflexivity].
    + destruct (Nat.ltb_spec (length residue) 3) as [Hl | Hl].
      * split; [discriminate|]. intros [H | (H & _)]; [|lia].
        apply mem_In in H. congruence.
      * rewrite andb_true_iff, !existsb_exists. split.
        -- intros [H1 H2]. right. auto.
        -- intros [H | (_ & H1 & H2)]; [|auto].
           apply mem_In in H. congruence.
Qed.

(** C6.  For every token sequence the detector returns the result of the
    known-model scan when it has one, else that of the multi-word scan
    when it has one, else that of the keyword scan.  The known-model scan
    returns the least index at which a catalog run (one to six tokens,
    each non-empty once normalized, whose joined key is in the catalog)
    starts, the matcher choosing the longest run at an index; the keyword
    scan returns the index of the first token that is a keyword or looks
    like a type code. *)
Theorem _find_aircraft_start_index_spec
  (raw_tokens stripped_tokens lowered_tokens : list str) :
  let detector :=
    _find_aircraft_start_index raw_tokens stripped_tokens lowered_tokens in
  let by_model := _find_aircraft_start_by_model raw_tokens in
  let by_multiword := find_multiword lowered_tokens AIRCRAFT_MULTIWORD_PATTERNS in
  let by_keyword := find_index _token_matches_aircraft stripped_tokens in
  ((forall i, by_model = Some i -> detector = Some i)
   /\ (by_model = None -> forall i, by_multiword = Some i -> detector = Some i)
   /\ (by_model = None -> by_multiword = None -> detector = by_keyword))
  /\ ((forall i, by_model = Some i
                 <-> model_start raw_tokens i
                     /\ forall j, j < i -> ~ model_start raw_tokens j)
      /\ (by_model = None <-> forall j, ~ model_start raw_tokens j)
      /\ (forall i run,
            _match_known_aircraft_tokens (skipn i raw_tokens) = Some run ->
            exists L,
              run = firstn L (skipn i raw_tokens)
              /\ catalog_run (skipn i raw_tokens) L
              /\ forall n, catalog_run (skipn i raw_tokens) n -> n <= L))
  /\ ((forall i, by_keyword = Some i
                 <-> (exists t, nth_error stripped_tokens i = Some t
                                /\ keyword_or_type_code t)
                     /\ forall j t, j < i ->
                                    nth_error stripped_tokens j = Some t ->
                                    ~ keyword_or_type_code t)
      /\ (by_keyword = None
          <-> forall t, In t stripped_tokens -> ~ keyword_or_type_code t)).
Proof.
  intros detector by_model by_multiword by_keyword.
  split; [|split].
  - unfold detector, _find_aircraft_start_index.
    fold by_model. fold by_multiword. fold by_keyword.
    split; [|split].
    + intros i ->. reflexivity.
    + intros -> i ->. reflexivity.
    + intros -> ->. reflexivity.
  - split; [|split].
    + intros i. apply _find_aircraft_start_by_model_Some.
    + apply _find_aircraft_start_by_model_None.
    + intros i run H. apply _match_known_aircraft_tokens_Some. exact H.
  - split.
    + intros i. unfold by_keyword. rewrite find_index_Some. split.
      * intros [(t & Hn & Ht) Hl]. split.
        -- exists t. split; [exact Hn | apply _token_matches_aircraft_iff; exact Ht].
        -- intros j y Hj Hy Hk. apply _token_matches_aircraft_iff in Hk.
           rewrite (Hl j y Hj Hy) in Hk. discriminate.
      * intros [(t & Hn & Ht) Hl]. split.
        -- exists t. split; [exact Hn | apply _token_matches_aircraft_iff; exact Ht].
        -- intros j y Hj Hy.
           destruct (_token_matches_aircraft y) eqn:E; [|reflexivity].
           apply _token_matches_aircraft_iff in E. exfalso. exact (Hl j y Hj Hy E).
    + unfold by_keyword. rewrite find_index_None. split.
      * intros H t Ht Hk. apply _token_matches_aircraft_iff in Hk.
        rewrite (H t Ht) in Hk. discriminate.
      * intros H t Ht.
        destruct (_token_matches_aircraft t) eqn:E; [|reflexivity].
        apply _token_matches_aircraft_iff in E. exfalso. exact (H t Ht E).
Qed.

(** ** The chunk parser *)

Lemma _tokens_are_manufacturers_iff (tokens : list str) :
  _tokens_are_manufacturers tokens = true
  <-> tokens <> [] /\ Forall manufacturer tokens.
Proof.
  unfold _tokens_are_manufacturers. destruct tokens as [|t tokens].
  - split; [discriminate | intros [H _]; congruence].
  - set (l := t :: tokens). rewrite forallb_forall, Forall_forall. split.
    + intros H. split; [discriminate|]. intros x Hx.
      specialize (H x Hx). apply andb_true_iff in H. apply mem_In. tauto.
    + intros [_ H] x Hx. specialize (H x Hx). unfold manufacturer in H.
      apply andb_true_iff. split; [|apply mem_In; exact H].
      destruct (lower (_normalize_aircraft_token x)); [|reflexivity].
      apply mem_In in H. vm_compute in H. discriminate.
Qed.

Lemma has_alpha_false (token : str) :
  has_alpha token = false <-> letterless token.
Proof.
  unfold has_alpha, letterless. split.
  - intros H c Hc. destruct (isalpha c) eqn:E; [|reflexivity].
    assert (existsb isalpha token = true)
      by (apply existsb_exists; exists c; auto). congruence.
  - intros H. destruct (existsb isalpha token) eqn:E; [|reflexivity].
    apply existsb_exists in E. destruct E as (c & Hc & Ec).
    rewrite (H c Hc) in Ec. discriminate.
Qed.

Lemma filter_none {A} (p : A -> bool) (l : list A) :
  (forall x, In x l -> p x = false) -> filter p l = [].
Proof.
  induction l as [|x l IH]; intros H; simpl; [reflexivity|].
  rewrite (H x) by (left; reflexivity). apply IH. intros y Hy; apply H; right; exact Hy.
Qed.

Lemma filter_all {A} (p : A -> bool) (l : list A) :
  (forall x, In x l -> p x = true) -> filter p l = l.
Proof.
  induction l as [|x l IH]; intros H; simpl; [reflexivity|].
  rewrite (H x) by (left; reflexivity). f_equal. apply IH.
  intros y Hy; apply H; right; exact Hy.
Qed.

Lemma assign_tokens_manufacturers (airline_tokens aircraft_tokens : list str) :
  Forall manufacturer airline_tokens ->
  assign_tokens airline_tokens aircraft_tokens
  = (Unknown, airline_tokens ++ aircraft_tokens).
Proof.
  intros H. unfold assign_tokens.
  destruct (_tokens_are_manufacturers airline_tokens) eqn:E; [reflexivity|].
  destruct airline_tokens as [|t l]; [reflexivity|].
  assert (_tokens_are_manufacturers (t :: l) = true)
    by (apply _tokens_are_manufacturers_iff; split; [discriminate | exact H]).
  congruence.
Qed.

Lemma assign_tokens_letterless (airline_tokens aircraft_tokens : list str) :
  Forall letterless airline_tokens ->
  assign_tokens airline_tokens aircraft_tokens
  = (Unknown, airline_tokens ++ aircraft_tokens).
Proof.
  intros H. rewrite Forall_forall in H. unfold assign_tokens.
  destruct (_tokens_are_manufacturers airline_tokens); [reflexivity|].
  rewrite (@filter_none _ has_alpha)
    by (intros x Hx; apply has_alpha_false; apply H; exact Hx).
  cbn [join]. change (strip []) with (@nil char). cbn [nonempty negb].
  rewrite filter_all
    by (intros x Hx; apply negb_true_iff, has_alpha_false; apply H; exact Hx).
  destruct airline_tokens; reflexivity.
Qed.

Lemma _find_aircraft_start_index_nil : _find_aircraft_start_index [] [] [] = None.
Proof. reflexivity. Qed.

(** C7.  The detector is run on the tokens of a chunk that has some (a
    blank chunk gives "Unknown" twice before any detection).  When it
    finds no start, the result is "Unknown" and the whole chunk stripped;
    when it finds one and every token before it is a manufacturer
    keyword, or none of the tokens before it has a letter, the airline
    is "Unknown" and those tokens are put back in front of the aircraft
    tokens, which are then trimmed and joined. *)
Theorem _parse_subject_chunk_spec (chunk : str) :
  let raw_tokens := split_ws chunk in
  let stripped_tokens := map _normalize_aircraft_token raw_tokens in
  let lowered_tokens := map lower stripped_tokens in
  let aircraft_start :=
    _find_aircraft_start_index raw_tokens stripped_tokens lowered_tokens in
  (raw_tokens = [] -> _parse_subject_chunk chunk = (Unknown, Unknown))
  /\ (raw_tokens <> [] ->
      aircraft_start = None ->
      _parse_subject_chunk chunk = (Unknown, strip chunk))
  /\ (forall i,
        aircraft_start = Some i ->
        Forall manufacturer (firstn i raw_tokens) ->
        _parse_subject_chunk chunk
        = (Unknown, aircraft_of_tokens (firstn i raw_tokens ++ skipn i raw_tokens)))
  /\ (forall i,
        aircraft_start = Some i ->
        Forall letterless (firstn i raw_tokens) ->
        _parse_subject_chunk chunk
        = (Unknown, aircraft_of_tokens (firstn i raw_tokens ++ skipn i raw_tokens))).
Proof.
  intros raw_tokens stripped_tokens lowered_tokens aircraft_start.
  assert (Hrun : forall i, aircraft_start = Some i ->
                 _parse_subject_chunk chunk
                 = (let (airline, aircraft_tokens) :=
                      assign_tokens (firstn i raw_tokens) (skipn i raw_tokens) in
                    (airline, aircraft_of_tokens aircraft_tokens))).
  { intros i Hi. unfold _parse_subject_chunk.
    fold raw_tokens. fold stripped_tokens. fold lowered_tokens.
    fold aircraft_start.
    destruct raw_tokens as [|t l] eqn:Er.
    - unfold aircraft_start, stripped_tokens, lowered_tokens in Hi.
      simpl in Hi. rewrite _find_aircraft_start_index_nil in Hi. discriminate.
    - cbn [nonempty negb]. rewrite Hi. reflexivity. }
  split; [|split; [|split]].
  - intros He. unfold _parse_subject_chunk. fold raw_tokens.
    rewrite He. reflexivity.
  - intros Hne Hs. unfold _parse_subject_chunk.
    fold raw_tokens. fold stripped_tokens. fold lowered_tokens.
    fold aircraft_start.
    apply nonempty_true in Hne. rewrite Hne, Hs. reflexivity.
  - intros i Hi Hm. rewrite (Hrun i Hi).
    rewrite assign_tokens_manufacturers by assumption. reflexivity.
  - intros i Hi Hl. rewrite (Hrun i Hi).
    rewrite assign_tokens_letterless by assumption. reflexivity.
Qed.

End Properties.

(** * Further properties *)

(** ** The schema test *)

Lemma strs_eqb_eq (a b : list str) : strs_eqb a b = true <-> a = b.
Proof.
  revert b; induction a as [|x a IH]; intros [|y b]; simpl;
    try (split; congruence).
  rewrite andb_true_iff, str_eqb_eq, IH. split.
  - intros [-> ->]; reflexivity.
  - intros E; inversion E; auto.
Qed.

Lemma forallb_mem_incl (a b : list str) :
  forallb (fun x => mem x b) a = true <-> incl a b.
Proof.
  rewrite forallb_forall. unfold incl.
  split; intros H x Hx; [apply mem_In | apply mem_In]; apply H; exact Hx.
Qed.

Lemma _DESIRED_INCIDENT_COLUMNS_NoDup : NoDup _DESIRED_INCIDENT_COLUMNS.
Proof.
  unfold _DESIRED_INCIDENT_COLUMNS. cbn [map].
  repeat (constructor;
          [intros H; apply mem_In in H; vm_compute in H; discriminate|]).
  constructor.
Qed.

(** X1.  The table has the desired schema exactly when its columns are the six
    desired ones, each once, in any order. *)
Theorem _has_desired_incident_schema_iff (columns : list str) :
  _has_desired_incident_schema columns = true
  <-> Permutation columns _DESIRED_INCIDENT_COLUMNS.
Proof.
  unfold _has_desired_incident_schema. cbv zeta.
  set (desired := _DESIRED_INCIDENT_COLUMNS). split.
  - destruct (nonempty columns); cbn [negb]; [|discriminate].
    destruct (strs_eqb columns desired) eqn:E.
    + intros _. apply strs_eqb_eq in E. rewrite E. apply Permutation_refl.
    + rewrite andb_true_iff, Nat.eqb_eq. unfold set_eqb.
      rewrite andb_true_iff, !forallb_mem_incl. intros [Hl [_ Hi]].
      apply Permutation_sym. apply NoDup_Permutation_bis.
      * apply _DESIRED_INCIDENT_COLUMNS_NoDup.
      * lia.
      * exact Hi.
  - intros P.
    assert (Hl : length columns = length desired) by (apply Permutation_length; exact P).
    destruct columns as [|c columns]; [discriminate|]. cbn [nonempty negb].
    destruct (strs_eqb (c :: columns) desired); [reflexivity|].
    rewrite andb_true_iff, Nat.eqb_eq. split; [exact Hl|].
    unfold set_eqb. rewrite andb_true_iff, !forallb_mem_incl. split.
    + intros x Hx. eapply Permutation_in; eassumption.
    + intros x Hx. eapply Permutation_in; [apply Permutation_sym|]; eassumption.
Qed.

(** ** The store *)

Module StoreFacts.

Import Store.

Lemma titles_app (a b : Table) : titles (a ++ b) = titles a ++ titles b.
Proof. apply map_app. Qed.

Lemma existsb_title (conn : Table) (row : Incident) :
  existsb (fun r => str_eqb (title r) (title row)) conn = true
  <-> In (title row) (titles conn).
Proof.
  unfold titles. rewrite existsb_exists, in_map_iff. split.
  - intros (r & Hr & E). apply str_eqb_eq in E. exists r. auto.
  - intros (r & E & Hr). exists r. split; [exact Hr|]. apply str_eqb_eq; exact E.
Qed.

(** The three outcomes of one insertion. *)
Lemma insert_incident_cases (conn : Table) (incident : Incident) :
  (is_news incident = true /\ insert_incident conn incident = (conn, false))
  \/ (is_news incident = false /\ In (title incident) (titles conn)
      /\ insert_incident conn incident = (conn, false))
  \/ (is_news incident = false /\ ~ In (title incident) (titles conn)
      /\ insert_incident conn incident = (conn ++ [incident], true)).
Proof.
  unfold insert_incident, is_news, insert_or_ignore.
  destruct (str_eqb (lower (category incident)) (lit "news")); [left; auto|].
  right.
  destruct (existsb _ conn) eqn:E.
  - left. split; [reflexivity|]. split; [apply existsb_title; exact E | reflexivity].
  - right. split; [reflexivity|]. split; [|reflexivity].
    intros H. apply existsb_title in H. congruence.
Qed.

(** What the loop does, from any state of the counters. *)
Lemma insert_incidents_from_spec (incidents : list Incident) :
  forall conn inserted skipped,
  exists added,
    insert_incidents_from conn inserted skipped incidents
    = (conn ++ added,
       (inserted + length added,
        skipped + (length incidents - length added)))
    /\ length added <= length incidents
    /\ (forall r, In r added ->
          In r incidents /\ is_news r = false /\ ~ In (title r) (titles conn))
    /\ NoDup (titles added)
    /\ (forall x, In x incidents -> is_news x = false ->
          In (title x) (titles (conn ++ added))).
Proof.
  induction incidents as [|x rest IH]; intros conn inserted skipped.
  - exists []. simpl. rewrite app_nil_r, !Nat.add_0_r.
    split; [reflexivity|]. split; [lia|]. split; [intros r []|].
    split; [constructor | intros y []].
  - cbn [insert_incidents_from].
    destruct (insert_incident_cases conn x)
      as [[Hn ->] | [(Hn & Hin & ->) | (Hn & Hnin & ->)]].
    + destruct (IH conn inserted (skipped + 1)) as (added & -> & Hl & Ha & Hd & Hc).
      exists added. split; [f_equal; f_equal; cbn [length]; lia|].
      split; [cbn [length]; lia|]. split.
      * intros r Hr. destruct (Ha r Hr) as (H1 & H2 & H3).
        split; [right; exact H1 | auto].
      * split; [exact Hd|]. intros y [<- | Hy] Hyn; [congruence | auto].
    + destruct (IH conn inserted (skipped + 1)) as (added & -> & Hl & Ha & Hd & Hc).
      exists added. split; [f_equal; f_equal; cbn [length]; lia|].
      split; [cbn [length]; lia|]. split.
      * intros r Hr. destruct (Ha r Hr) as (H1 & H2 & H3).
        split; [right; exact H1 | auto].
      * split; [exact Hd|]. intros y [<- | Hy] Hyn; [|auto].
        rewrite titles_app. apply in_or_app. left. exact Hin.
    + destruct (IH (conn ++ [x]) (inserted + 1) skipped)
        as (added & -> & Hl & Ha & Hd & Hc).
      exists (x :: added). rewrite <- app_assoc. cbn [app].
      split; [f_equal; f_equal; cbn [length]; lia|].
      split; [cbn [length]; lia|]. split; [|split].
      * intros r [<- | Hr]; [split; [left; reflexivity | auto]|].
        destruct (Ha r Hr) as (H1 & H2 & H3).
        split; [right; exact H1|]. split; [exact H2|].
        intros H. apply H3. rewrite titles_app. apply in_or_app. left; exact H.
      * cbn [titles map]. constructor; [|exact Hd].
        intros H. unfold titles in H. apply in_map_iff in H.
        destruct H as (r & E & Hr). destruct (Ha r Hr) as (_ & _ & H3).
        apply H3. rewrite titles_app. apply in_or_app. right.
        rewrite E. left. reflexivity.
      * intros y [<- | Hy] Hyn.
        -- rewrite titles_app. apply in_or_app. right. left. reflexivity.
        -- specialize (Hc y Hy Hyn). rewrite <- app_assoc in Hc. exact Hc.
Qed.


(** X3.  The rows that were there stay, in place; rows are only added at the
    end, each an incident of the batch; and titles that were unique stay
    unique. *)
Theorem insert_incidents_appends (conn : Table) (incidents : list Incident) :
  exists added,
    fst (insert_incidents conn incidents) = conn ++ added
    /\ (forall r, In r added -> In r incidents)
    /\ (NoDup (titles conn) ->
        NoDup (titles (fst (insert_incidents conn incidents)))).
Proof.
  unfold insert_incidents.
  destruct (insert_incidents_from_spec incidents conn 0 0)
    as (added & -> & _ & Ha & Hd & _).
  exists added. cbn [fst]. split; [reflexivity|]. split.
  - intros r Hr. apply (Ha r Hr).
  - intros Hc. rewrite titles_app. apply NoDup_app; [exact Hc | exact Hd|].
    intros t Ht Ht'. unfold titles in Ht'. apply in_map_iff in Ht'.
    destruct Ht' as (r & <- & Hr). destruct (Ha r Hr) as (_ & _ & H3).
    exact (H3 Ht).
Qed.


Lemma insert_incidents_added (conn : Table) (incidents : list Incident) :
  exists added,
    fst (insert_incidents conn incidents) = conn ++ added
    /\ (forall r, In r added -> is_news r = false)
    /\ (NoDup (titles conn) -> NoDup (titles (conn ++ added))).
Proof.
  unfold insert_incidents.
  destruct (insert_incidents_from_spec incidents conn 0 0)
    as (added & -> & _ & Ha & Hd & _).
  exists added. cbn [fst]. split; [reflexivity|]. split.
  - intros r Hr. apply (Ha r Hr).
  - intros Hc. rewrite titles_app. apply NoDup_app; [exact Hc | exact Hd|].
    intros t Ht Ht'. unfold titles in Ht'. apply in_map_iff in Ht'.
    destruct Ht' as (r & <- & Hr). destruct (Ha r Hr) as (_ & _ & H3).
    exact (H3 Ht).
Qed.

Lemma insert_incidents_from_all_skipped (incidents : list Incident) :
  forall conn inserted skipped,
    (forall x, In x incidents ->
       is_news x = true \/ In (title x) (titles conn)) ->
    insert_incidents_from conn inserted skipped incidents
    = (conn, (inserted, skipped + length incidents)).
Proof.
  induction incidents as [|x rest IH]; intros conn inserted skipped H.
  - simpl. rewrite Nat.add_0_r. reflexivity.
  - cbn [insert_incidents_from].
    destruct (insert_incident_cases conn x)
      as [[Hn ->] | [(Hn & Hin & ->) | (Hn & Hnin & ->)]].
    + rewrite IH by (intros y Hy; apply H; right; exact Hy).
      simpl. f_equal. f_equal. lia.
    + rewrite IH by (intros y Hy; apply H; right; exact Hy).
      simpl. f_equal. f_equal. lia.
    + exfalso. destruct (H x (or_introl eq_refl)) as [Hx | Hx]; [congruence|].
      exact (Hnin Hx).
Qed.


End StoreFacts.

(** ** The page loop *)

Section PageLoop.

Variable scrape_single_page : str -> option (list Store.Incident * option str).

Variable request_delay_seconds : Z.

#[local] Abbreviation loop := (scrape_loop scrape_single_page).
#[local] Abbreviation adds := (loop_adds scrape_single_page request_delay_seconds).

Lemma scrape_loop_stops (remaining : nat) (current_url : option str) (run0 : Run) :
  remaining = 0 \/ truthy current_url = false ->
  loop remaining request_delay_seconds current_url run0 = run0.
Proof.
  destruct remaining as [|n]; destruct current_url as [[|c u]|];
    intros [H | H]; try reflexivity; discriminate.
Qed.

Lemma loop_adds_nothing (remaining : nat) (current_url : option str) (run0 : Run) :
  remaining = 0 \/ truthy current_url = false ->
  adds remaining current_url run0 run0 [] [].
Proof.
  intros H. unfold loop_adds. rewrite !app_nil_r. cbn [length linked].
  split; [reflexivity|]. split; [reflexivity|]. split; [lia|].
  split; [lia|]. split; [lia|]. split; [intros _; lia|]. split; [exact I|].
  split; [intros row []|]. split; [auto|]. split; [reflexivity|].
  split; [split; [intros _; exact H | reflexivity]|].
  split; [intros _ E; congruence|]. split; [lia | auto].
Qed.

(** A page that was asked for, and nothing after it. *)
Lemma loop_adds_one (remaining' : nat) (url : str) (run0 r : Run)
  (added : Store.Table) :
  url <> [] ->
  requested r = requested run0 ++ [url] ->
  conn r = conn run0 ++ added ->
  pages_scraped run0 <= pages_scraped r <= pages_scraped run0 + 1 ->
  (raised r = None -> pages_scraped r = pages_scraped run0 + 1) ->
  (forall row, In row added -> Store.is_news row = false) ->
  (NoDup (Store.titles (conn run0)) -> NoDup (Store.titles (conn run0 ++ added))) ->
  pauses r = pauses run0 ->
  ((0 <= request_delay_seconds)%Z -> raised r <> Some ValueError) ->
  adds (S remaining') (Some url) run0 r [url] added.
Proof.
  intros Hu Hq Hc Hp Hr Hn Hd Hpa Hv. unfold loop_adds. cbn [length linked].
  split; [exact Hq|]. split; [exact Hc|]. split; [lia|].
  split; [lia|]. split; [lia|]. split; [intros H; specialize (Hr H); lia|].
  split; [auto|]. split; [exact Hn|]. split; [rewrite Hc; exact Hd|].
  split; [discriminate|]. split.
  - split; [discriminate|]. intros [H | H]; [discriminate|].
    destruct url; [congruence | discriminate].
  - split; [intros H _; specialize (Hr H); lia|]. split; [lia|].
    intros H1 H2. exfalso. exact (Hv H1 H2).
Qed.

Lemma scrape_loop_inv (remaining : nat) :
  forall current_url run0,
  exists reqs added,
    adds remaining current_url run0
         (loop remaining request_delay_seconds current_url run0) reqs added.
Proof.
  induction remaining as [|remaining' IH]; intros current_url run0.
  - exists [], []. rewrite scrape_loop_stops by (left; reflexivity).
    apply loop_adds_nothing. left; reflexivity.
  - destruct current_url as [[|c u]|].
    1,3: (exists [], []; rewrite scrape_loop_stops by (right; reflexivity);
          apply loop_adds_nothing; right; reflexivity).
    cbn [scrape_loop].
    set (url := c :: u).
    assert (Hu : url <> []) by discriminate.
    destruct (scrape_single_page url) as [[incidents_on_page next_url]|] eqn:Epage.
    2: { exists [url], []. apply loop_adds_one; cbn [conn requested pages_scraped raised pauses];
           try reflexivity; try discriminate; auto; try lia.
         - rewrite app_nil_r; reflexivity.
         - intros row [].
         - rewrite app_nil_r; auto. }
    set (conn' := if nonempty incidents_on_page
                  then fst (Store.insert_incidents (conn run0) incidents_on_page)
                  else conn run0).
    assert (Hconn : exists added1,
               conn' = conn run0 ++ added1
               /\ (forall row, In row added1 -> Store.is_news row = false)
               /\ (NoDup (Store.titles (conn run0)) ->
                   NoDup (Store.titles (conn run0 ++ added1)))).
    { unfold conn'. destruct (nonempty incidents_on_page).
      - apply StoreFacts.insert_incidents_added.
      - exists []. rewrite app_nil_r. split; [reflexivity|].
        split; [intros row [] | auto]. }
    destruct Hconn as (added1 & Ec & Hnews1 & Hdup1).
    destruct (truthy next_url && (0 <? remaining')) eqn:Econt.
    + apply andb_true_iff in Econt. destruct Econt as [Ht Hr].
      apply Nat.ltb_lt in Hr.
      destruct (request_delay_seconds <? 0)%Z eqn:Ed.
      * exists [url], added1.
        apply loop_adds_one; cbn [conn requested pages_scraped raised pauses];
          try reflexivity; try discriminate; auto; try lia.
      * match goal with
        | |- context [scrape_loop _ _ _ _ ?run1] => set (run' := run1)
        end.
        destruct (IH next_url run') as (reqs & added & Hadds).
        set (r := loop remaining' request_delay_seconds next_url run') in *.
        destruct Hadds as (Hq & Hc & Hl & Hp1 & Hp2 & Hrn & Hlk
                           & Hnews & Hdup & Hnil & Hiff & Hpa & Hpb & Hve).
        unfold run' in Hq, Hc, Hp1, Hp2, Hrn, Hdup, Hpa, Hpb, Hve.
        cbn [conn requested pages_scraped raised pauses]
          in Hq, Hc, Hp1, Hp2, Hrn, Hdup, Hpa, Hpb, Hve.
        assert (Hne : reqs <> []).
        { intros E. apply Hiff in E. destruct E as [E | E]; [lia | congruence]. }
        exists (url :: reqs), (added1 ++ added). unfold loop_adds.
        split; [rewrite Hq, <- app_assoc; reflexivity|].
        split; [rewrite Hc, Ec, <- app_assoc; reflexivity|].
        cbn [length].
        split; [lia|]. split; [lia|]. split; [lia|].
        split; [intros H; specialize (Hrn H); lia|].
        split.
        { cbn [linked]. split; [reflexivity|].
          destruct reqs as [|q reqs]; [congruence|].
          exists incidents_on_page, next_url. split; [exact Epage | exact Hlk]. }
        split.
        { intros row Hrow. apply in_app_or in Hrow.
          destruct Hrow as [H | H]; [apply Hnews1 | apply Hnews]; exact H. }
        split; [intros H; apply Hdup; rewrite Ec; apply Hdup1; exact H|].
        split; [discriminate|].
        split; [split; [discriminate | intros [H | H]; discriminate]|].
        split; [intros H _; specialize (Hpa H Hne); lia|].
        split; [lia|].
        intros Hd H. specialize (Hve Hd H). discriminate.
    + match goal with
      | |- context [scrape_loop _ _ _ _ ?run1] => set (run' := run1)
      end.
      assert (E : remaining' = 0 \/ truthy next_url = false).
      { apply andb_false_iff in Econt.
        destruct Econt as [H | H]; [right; exact H|].
        left. apply Nat.ltb_ge in H. lia. }
      rewrite scrape_loop_stops by exact E.
      exists [url], added1.
      apply loop_adds_one; unfold run';
        cbn [conn requested pages_scraped raised pauses];
        try reflexivity; try discriminate; auto; try lia.
Qed.

(** X6.  [scrape] asks for at most [max_pages_to_scrape] pages and counts at
    most as many; a run that ends without exception has counted every
    page it asked for and paused exactly between two pages; and with a
    delay that is not negative no [ValueError] ends it. *)
Theorem scrape_bounds (BASE_URL : str) (table : Store.Table)
  (max_pages_to_scrape : Z) :
  let r := scrape scrape_single_page BASE_URL table
                  max_pages_to_scrape request_delay_seconds in
  length (requested r) <= Z.to_nat max_pages_to_scrape
  /\ pages_scraped r <= length (requested r)
  /\ pauses r <= pages_scraped r
  /\ (raised r = None ->
      pages_scraped r = length (requested r)
      /\ pauses r = pages_scraped r - 1)
  /\ ((0 <= request_delay_seconds)%Z -> raised r <> Some ValueError).
Proof.
  intros r. unfold r, scrape.
  match goal with
  | |- context [scrape_loop _ _ _ _ ?run1] => set (run0 := run1)
  end.
  destruct (scrape_loop_inv (Z.to_nat max_pages_to_scrape) (Some BASE_URL) run0)
    as (reqs & added & Hadds).
  set (r' := loop _ _ _ run0) in *.
  destruct Hadds as (Hq & Hc & Hl & Hp1 & Hp2 & Hrn & Hlk
                     & Hnews & Hdup & Hnil & Hiff & Hpa & Hpb & Hve).
  unfold run0 in Hq, Hp1, Hp2, Hrn, Hpa, Hpb, Hve.
  cbn [conn requested pages_scraped raised pauses app] in Hq, Hp1, Hp2, Hrn, Hpa, Hpb, Hve.
  rewrite Hq.
  split; [exact Hl|]. split; [lia|]. split; [lia|]. split.
  - intros H. specialize (Hrn H). split; [lia|].
    destruct reqs as [|q reqs].
    + rewrite (Hnil eq_refl). reflexivity.
    + assert (Hne : q :: reqs <> []) by discriminate.
      specialize (Hpa H Hne). cbn [length] in *. lia.
  - intros Hd H. specialize (Hve Hd H). discriminate.
Qed.

(** X7.  The pages asked for form a chain: the first is [BASE_URL], and each
    other one is the next page named by the page before it. *)
Theorem scrape_follows_links (BASE_URL : str) (table : Store.Table)
  (max_pages_to_scrape : Z) :
  linked scrape_single_page (Some BASE_URL)
         (requested (scrape scrape_single_page BASE_URL table
                            max_pages_to_scrape request_delay_seconds)).
Proof.
  unfold scrape.
  match goal with
  | |- context [scrape_loop _ _ _ _ ?run1] => set (run0 := run1)
  end.
  destruct (scrape_loop_inv (Z.to_nat max_pages_to_scrape) (Some BASE_URL) run0)
    as (reqs & added & Hq & _ & _ & _ & _ & _ & Hlk & _).
  rewrite Hq. exact Hlk.
Qed.

(** X8.  Whatever the pages hold and however the run ends, the rows that were
    in the table stay, in place; the rows added are not of the category
    "news"; and titles that were unique stay unique. *)
Theorem scrape_keeps_table (BASE_URL : str) (table : Store.Table)
  (max_pages_to_scrape : Z) :
  let r := scrape scrape_single_page BASE_URL table
                  max_pages_to_scrape request_delay_seconds in
  exists added,
    conn r = table ++ added
    /\ (forall row, In row added -> Store.is_news row = false)
    /\ (NoDup (Store.titles table) -> NoDup (Store.titles (conn r))).
Proof.
  intros r. unfold r, scrape.
  match goal with
  | |- context [scrape_loop _ _ _ _ ?run1] => set (run0 := run1)
  end.
  destruct (scrape_loop_inv (Z.to_nat max_pages_to_scrape) (Some BASE_URL) run0)
    as (reqs & added & _ & Hc & _ & _ & _ & _ & _ & Hnews & Hdup & _).
  exists added. split; [exact Hc|]. split; [exact Hnews | exact Hdup].
Qed.

End PageLoop.

(** ** More on stripping *)

Lemma lstrip_by_app_all p w s :
  forallb p w = true -> lstrip_by p (w ++ s) = lstrip_by p s.
Proof.
  induction w as [|c w IH]; simpl; [reflexivity|].
  intros H. apply andb_true_iff in H. destruct H as [Hc Hw].
  rewrite Hc. apply IH; exact Hw.
Qed.

Lemma lstrip_by_app_stop p a c b :
  p c = false -> lstrip_by p (a ++ c :: b) = lstrip_by p a ++ c :: b.
Proof.
  intros H. induction a as [|x a IH]; simpl.
  - rewrite H; reflexivity.
  - destruct (p x); [exact IH | reflexivity].
Qed.

Lemma rstrip_by_app_all p s w :
  forallb p w = true -> rstrip_by p (s ++ w) = rstrip_by p s.
Proof.
  intros H. unfold rstrip_by. rewrite rev_app_distr.
  rewrite lstrip_by_app_all; [reflexivity|].
  rewrite forallb_forall in *. intros x Hx. apply H. apply in_rev; exact Hx.
Qed.

Lemma rstrip_by_app_stop p a c b :
  p c = false -> rstrip_by p (a ++ c :: b) = a ++ c :: rstrip_by p b.
Proof.
  intros H. unfold rstrip_by.
  replace (rev (a ++ c :: b)) with (rev b ++ c :: rev a)
    by (rewrite rev_app_distr; simpl; rewrite <- app_assoc; reflexivity).
  rewrite lstrip_by_app_stop by exact H.
  rewrite rev_app_distr. simpl. rewrite rev_involutive, <- app_assoc.
  reflexivity.
Qed.

Lemma lstrip_by_app_keep p s w c t :
  lstrip_by p s = c :: t -> lstrip_by p (s ++ w) = (c :: t) ++ w.
Proof.
  induction s as [|x s IH]; simpl; [discriminate|].
  destruct (p x); [exact IH | intros H; inversion H; subst; reflexivity].
Qed.

Lemma strip_by_pad p w1 s w2 :
  forallb p w1 = true -> forallb p w2 = true ->
  strip_by p (w1 ++ s ++ w2) = strip_by p s.
Proof.
  intros H1 H2. unfold strip_by. rewrite lstrip_by_app_all by exact H1.
  destruct (lstrip_by p s) as [|c t] eqn:E.
  - apply lstrip_by_nil in E.
    rewrite (proj2 (lstrip_by_nil p (s ++ w2))); [reflexivity|].
    rewrite forallb_app, E, H2. reflexivity.
  - pose proof (lstrip_by_head _ _ E) as Hc.
    rewrite (lstrip_by_app_keep _ _ w2 E). apply rstrip_by_app_all; exact H2.
Qed.

Lemma In_lstrip_by p s c : In c (lstrip_by p s) -> In c s.
Proof.
  induction s as [|x s IH]; simpl; [tauto|].
  destruct (p x); [intros H; right; apply IH; exact H | tauto].
Qed.

Lemma In_strip_by p s c : In c (strip_by p s) -> In c s.
Proof.
  unfold strip_by, rstrip_by. intros H. apply in_rev in H.
  apply In_lstrip_by in H. apply in_rev in H. apply In_lstrip_by in H.
  exact H.
Qed.

Lemma before_first_app (c : char) (x y : str) :
  ~ In c x -> before_first c (x ++ c :: y) = x.
Proof.
  induction x as [|a x IH]; intros H; simpl.
  - rewrite N.eqb_refl; reflexivity.
  - destruct (N.eqb_spec a c) as [-> | N]; [exfalso; apply H; left; reflexivity|].
    f_equal. apply IH. intros Hx; apply H; right; exact Hx.
Qed.

Lemma existsb_eqb_In (c : char) (s : str) :
  existsb (N.eqb c) s = true <-> In c s.
Proof.
  rewrite existsb_exists. split.
  - intros (x & Hx & E). apply N.eqb_eq in E. subst; exact Hx.
  - intros H. exists c. split; [exact H | apply N.eqb_refl].
Qed.

Section Headlines.

Context {U : UnicodeData}.

(** ** Headlines *)

Lemma build_entries_facts title ts idx pairs :
  map facts (build_entries title ts idx pairs)
  = map (fun p => (ts, fst p, snd p)) pairs.
Proof.
  revert idx; induction pairs as [|[a b] pairs IH]; intros idx; simpl;
    [reflexivity|].
  rewrite IH. reflexivity.
Qed.

Lemma process_title_facts (raw_title : str) :
  map facts (process_title raw_title)
  = let dated := extract_date (title_for_parsing (strip raw_title)) in
    map (fun p => (fst dated, fst p, snd p))
        (_extract_aircraft_entries (snd dated)).
Proof. rewrite process_title_unfold. apply build_entries_facts. Qed.

(** X9.  White space before and after a headline changes nothing. *)
Theorem process_title_ignores_padding (before raw_title after : str) :
  forallb isspace before = true ->
  forallb isspace after = true ->
  process_title (before ++ raw_title ++ after) = process_title raw_title.
Proof.
  intros H1 H2. rewrite !process_title_unfold.
  unfold strip. rewrite strip_by_pad by assumption. reflexivity.
Qed.

Lemma title_for_parsing_comma (a b : str) :
  ~ In 44%N a ->
  title_for_parsing (strip (a ++ 44%N :: b)) = title_for_parsing (strip a).
Proof.
  intros Ha.
  assert (Hs : strip (a ++ 44%N :: b)
               = lstrip_by isspace a ++ 44%N :: rstrip_by isspace b).
  { unfold strip, strip_by.
    rewrite lstrip_by_app_stop by reflexivity.
    apply rstrip_by_app_stop. reflexivity. }
  assert (Hl : ~ In 44%N (lstrip_by isspace a))
    by (intros H; apply Ha; apply In_lstrip_by in H; exact H).
  unfold title_for_parsing at 1. rewrite Hs.
  rewrite (proj2 (existsb_eqb_In 44%N _))
    by (apply in_or_app; right; left; reflexivity).
  rewrite before_first_app by exact Hl.
  unfold title_for_parsing.
  destruct (existsb (N.eqb 44%N) (strip a)) eqn:E.
  - apply existsb_eqb_In in E. exfalso. apply Ha.
    apply (In_strip_by isspace). exact E.
  - unfold strip, strip_by. rewrite lstrip_by_idem. reflexivity.
Qed.

(** X10.  The clause after the first comma of a headline has no part in the
    timestamp, the airline or the aircraft: they are those of the text
    before the comma taken alone. *)
Theorem process_title_ignores_clause (subject clause : str) :
  ~ In 44%N subject ->
  map facts (process_title (subject ++ lit "," ++ clause))
  = map facts (process_title subject).
Proof.
  intros H. rewrite !process_title_facts.
  change (subject ++ lit "," ++ clause) with (subject ++ 44%N :: clause).
  rewrite title_for_parsing_comma by exact H. reflexivity.
Qed.

(** X11.  A headline that gives more than one entry gives no entry whose
    aircraft is "Unknown". *)
Theorem several_entries_have_aircraft (raw_title : str) :
  2 <= length (process_title raw_title) ->
  Forall (fun e => aircraft e <> Unknown) (process_title raw_title).
Proof.
  intros Hl.
  pose proof (process_title_pairs raw_title) as Hp.
  set (text := snd _) in Hp.
  assert (Hlen : length (_extract_aircraft_entries text)
                 = length (process_title raw_title))
    by (rewrite <- Hp; apply length_map).
  assert (Hv : Forall (fun p => snd p <> Unknown) (_extract_aircraft_entries text)).
  { revert Hlen. unfold _extract_aircraft_entries.
    destruct (nonempty (_extract_subject_segment text)); cbn [negb];
      [|simpl; intros; lia].
    destruct (nonempty (_split_subject_chunks _)); [|simpl; intros; lia].
    destruct (_chunks_are_valid _) eqn:Ev; [|simpl; intros; lia].
    intros _. apply _chunks_are_valid_iff in Ev. apply Ev. }
  rewrite <- Hp in Hv. rewrite Forall_map in Hv. exact Hv.
Qed.

(** X12.  All the entries of a headline carry the same timestamp: that of the
    first date phrase of the text before the first comma, and none when
    there is no such phrase. *)
Theorem entries_share_timestamp (raw_title : str) :
  let text := title_for_parsing (strip raw_title) in
  Forall (fun e => timestamp e
                   = match DATE_REGEX_search 0 text with
                     | Some (_, date_str) => date_to_timestamp date_str
                     | None => None
                     end)
         (process_title raw_title).
Proof.
  intros text. rewrite process_title_unfold. fold text.
  replace (match DATE_REGEX_search 0 text with
           | Some (_, date_str) => date_to_timestamp date_str
           | None => None
           end)
    with (fst (extract_date text)).
  - apply build_entries_timestamp.
  - unfold extract_date. destruct (DATE_REGEX_search 0 text) as [[i d]|];
      reflexivity.
Qed.

End Headlines.

(** ** Tokens *)

Lemma split_ws_cons (c : char) (s : str) :
  split_ws (c :: s)
  = if isspace c then split_ws s
    else match s with
         | [] => [[c]]
         | d :: _ =>
             if isspace d then [c] :: split_ws s
             else match split_ws s with
                  | w :: ws => (c :: w) :: ws
                  | [] => [[c]]
                  end
         end.
Proof. destruct s; reflexivity. Qed.

Lemma spaceless_cons (c : char) (w : str) :
  isspace c = false ->
  w = [] \/ spaceless w ->
  spaceless (c :: w).
Proof.
  intros Hc Hw. split; [discriminate|]. simpl. rewrite Hc. simpl.
  destruct Hw as [-> | [_ H]]; [reflexivity | exact H].
Qed.

Lemma split_ws_spaceless (s : str) : Forall spaceless (split_ws s).
Proof.
  induction s as [|c s IH]; [constructor|].
  rewrite split_ws_cons. destruct (isspace c) eqn:Ec; [exact IH|].
  destruct s as [|d s'].
  - constructor; [apply spaceless_cons; auto | constructor].
  - destruct (isspace d).
    + constructor; [apply spaceless_cons; auto | exact IH].
    + destruct (split_ws (d :: s')) as [|w ws].
      * constructor; [apply spaceless_cons; auto | constructor].
      * inversion IH; subst. constructor; [|assumption].
        apply spaceless_cons; auto.
Qed.

Lemma spaceless_ends (t : str) :
  spaceless t ->
  (exists c t', t = c :: t' /\ isspace c = false)
  /\ (exists t' d, t = t' ++ [d] /\ isspace d = false).
Proof.
  intros [Hne Hall]. rewrite forallb_forall in Hall. split.
  - destruct t as [|c t']; [congruence|]. exists c, t'. split; [reflexivity|].
    apply negb_true_iff. apply Hall. left; reflexivity.
  - destruct (exists_last Hne) as (t' & d & ->). exists t', d.
    split; [reflexivity|]. apply negb_true_iff. apply Hall.
    apply in_or_app. right. left. reflexivity.
Qed.

Lemma join_head (sep t : str) (rest : list str) :
  exists x, join sep (t :: rest) = t ++ x.
Proof.
  destruct rest as [|t2 rest].
  - exists []. simpl. rewrite app_nil_r. reflexivity.
  - eexists. reflexivity.
Qed.

Lemma join_last (sep : str) (tokens : list str) :
  tokens <> [] ->
  exists x t, In t tokens /\ join sep tokens = x ++ t.
Proof.
  induction tokens as [|t rest IH]; [congruence|]. intros _.
  destruct rest as [|t2 rest].
  - exists [], t. split; [left; reflexivity | reflexivity].
  - destruct IH as (x & l & Hl & E); [discriminate|].
    exists (t ++ sep ++ x), l. split; [right; exact Hl|].
    change (join sep (t :: t2 :: rest)) with (t ++ sep ++ join sep (t2 :: rest)).
    rewrite E, <- !app_assoc. reflexivity.
Qed.

Lemma strip_by_fixed p (s : str) c s' s'' d :
  s = c :: s' -> s = s'' ++ [d] -> p c = false -> p d = false ->
  strip_by p s = s.
Proof.
  intros E1 E2 Hc Hd. unfold strip_by.
  rewrite E1 at 1. rewrite lstrip_by_fixed by exact Hc. rewrite <- E1.
  unfold rstrip_by. rewrite E2 at 1. rewrite rev_app_distr. simpl.
  rewrite Hd. simpl. rewrite rev_involutive. symmetry; exact E2.
Qed.

(** Joined by single spaces, tokens without white space are not touched
    by [strip]. *)
Lemma strip_join (tokens : list str) :
  tokens <> [] -> Forall spaceless tokens ->
  strip (join (lit " ") tokens) = join (lit " ") tokens.
Proof.
  intros Hne Hall. rewrite Forall_forall in Hall.
  destruct tokens as [|t rest]; [congruence|].
  destruct (join_head (lit " ") t rest) as (x & Ex).
  destruct (join_last (lit " ") Hne) as (y & l & Hl & Ey).
  destruct (spaceless_ends (Hall t (or_introl eq_refl))) as [(c & t' & -> & Hc) _].
  destruct (spaceless_ends (Hall l Hl)) as [_ (l' & d & -> & Hd)].
  apply (@strip_by_fixed isspace _ c (t' ++ x) (y ++ l') d).
  - rewrite Ex. reflexivity.
  - rewrite Ey, app_assoc. reflexivity.
  - exact Hc.
  - exact Hd.
Qed.

Lemma In_firstn {A} (n : nat) (l : list A) (x : A) :
  In x (firstn n l) -> In x l.
Proof.
  revert l; induction n as [|n IH]; intros [|y l]; simpl; try tauto.
  intros [H | H]; [left; exact H | right; apply IH; exact H].
Qed.

Lemma Forall_firstn {A} (P : A -> Prop) (n : nat) (l : list A) :
  Forall P l -> Forall P (firstn n l).
Proof.
  intros H. rewrite Forall_forall in *. intros x Hx. apply H.
  eapply In_firstn; eassumption.
Qed.

Lemma Forall_filter {A} (P : A -> Prop) (f : A -> bool) (l : list A) :
  Forall P l -> Forall P (filter f l).
Proof.
  intros H. rewrite Forall_forall in *. intros x Hx. apply H.
  apply filter_In in Hx. tauto.
Qed.

Section Chunks.

Context {U : UnicodeData}.

Lemma assign_tokens_named (airline_tokens aircraft_tokens : list str) :
  Forall spaceless airline_tokens ->
  fst (assign_tokens airline_tokens aircraft_tokens) = Unknown
  \/ (filter has_alpha airline_tokens <> []
      /\ fst (assign_tokens airline_tokens aircraft_tokens)
         = join (lit " ") (filter has_alpha airline_tokens)).
Proof.
  intros Hs. unfold assign_tokens.
  destruct (_tokens_are_manufacturers airline_tokens); [left; reflexivity|].
  destruct (filter has_alpha airline_tokens) as [|t rest] eqn:Ef.
  - left. cbn [join]. change (strip []) with (@nil char). cbn [nonempty negb].
    destruct (nonempty _); reflexivity.
  - rewrite strip_join;
      [|discriminate | rewrite <- Ef; apply Forall_filter; exact Hs].
    destruct (join_head (lit " ") t rest) as (x & Ex).
    assert (Ht : spaceless t).
    { assert (In t (filter has_alpha airline_tokens)) by (rewrite Ef; left; reflexivity).
      apply filter_In in H. rewrite Forall_forall in Hs. apply Hs. tauto. }
    destruct Ht as [Hne _].
    assert (Hj : nonempty (join (lit " ") (t :: rest)) = true).
    { rewrite Ex. destruct t; [congruence | reflexivity]. }
    rewrite Hj. cbn [negb fst]. right. split; [discriminate | reflexivity].
Qed.

(** X13.  The airline of a chunk is "Unknown", or it is made of the tokens that
    stand before the aircraft and contain a letter, in their order, with
    one space between them: tokens without letters, such as flight
    numbers, are left out of it. *)
Theorem airline_is_the_lettered_tokens (chunk : str) :
  let raw_tokens := split_ws chunk in
  let stripped_tokens := map _normalize_aircraft_token raw_tokens in
  let aircraft_start :=
    _find_aircraft_start_index raw_tokens stripped_tokens
                               (map lower stripped_tokens) in
  fst (_parse_subject_chunk chunk) = Unknown
  \/ exists i,
       aircraft_start = Some i
       /\ filter has_alpha (firstn i raw_tokens) <> []
       /\ fst (_parse_subject_chunk chunk)
          = join (lit " ") (filter has_alpha (firstn i raw_tokens)).
Proof.
  intros raw_tokens stripped_tokens aircraft_start.
  unfold _parse_subject_chunk.
  fold raw_tokens. fold stripped_tokens. fold aircraft_start.
  destruct (nonempty raw_tokens); cbn [negb]; [|left; reflexivity].
  destruct aircraft_start as [i|]; [|left; reflexivity].
  pose proof (@assign_tokens_named (firstn i raw_tokens) (skipn i raw_tokens)
                (Forall_firstn i (split_ws_spaceless chunk))) as H.
  destruct (assign_tokens _ _) as [a toks]. cbn [fst] in *.
  destruct H as [H | [H1 H2]]; [left; exact H|].
  right. exists i. auto.
Qed.

(** X14.  The chunks of a subject are never empty and never begin or end with
    a space, a comma, a semicolon or a slash; an empty subject has no
    chunk. *)
Theorem _split_subject_chunks_trimmed (subject : str) :
  Forall (fun chunk => chunk <> []
                       /\ strip_chars (lit " ,;/") chunk = chunk)
         (_split_subject_chunks subject)
  /\ (subject = [] -> _split_subject_chunks subject = []).
Proof.
  split; [|intros ->; reflexivity].
  unfold _split_subject_chunks.
  destruct (nonempty subject); cbn [negb]; [|constructor].
  apply Forall_forall. intros chunk H. apply in_map_iff in H.
  destruct H as (piece & <- & Hp). apply filter_In in Hp.
  destruct Hp as [_ Hp]. apply andb_true_iff in Hp. destruct Hp as [_ Hp].
  split; [apply nonempty_true; exact Hp|].
  unfold strip_chars. apply strip_by_idem.
Qed.

Lemma find_multiword_bound (lowered_tokens : list str) (patterns : list (list str)) (i : nat) :
  Forall (fun pattern => 1 <= length pattern) patterns ->
  find_multiword lowered_tokens patterns = Some i ->
  i < length lowered_tokens.
Proof.
  induction patterns as [|pattern rest IH]; intros Hp; simpl; [discriminate|].
  inversion Hp; subst.
  destruct (find_pattern lowered_tokens pattern) as [k|] eqn:E.
  - intros H; inversion H; subst. unfold find_pattern in E.
    apply find_seq_Some in E. lia.
  - apply IH; assumption.
Qed.

(** X15.  In [_parse_subject_chunk] a boundary that is found is the index of a
    token: the aircraft tokens [raw_tokens[aircraft_start:]] are never
    empty. *)
Theorem aircraft_start_in_range (raw_tokens : list str) (i : nat) :
  let stripped_tokens := map _normalize_aircraft_token raw_tokens in
  _find_aircraft_start_index raw_tokens stripped_tokens
                             (map lower stripped_tokens) = Some i ->
  i < length raw_tokens /\ skipn i raw_tokens <> [].
Proof.
  intros stripped_tokens H.
  assert (Hi : i < length raw_tokens).
  { unfold _find_aircraft_start_index in H.
    destruct (_find_aircraft_start_by_model raw_tokens) as [k|] eqn:Em.
    - inversion H; subst. apply _find_aircraft_start_by_model_Some in Em.
      apply model_start_bound. apply Em.
    - destruct (find_multiword _ _) as [k|] eqn:Ew.
      + inversion H; subst. apply find_multiword_bound in Ew.
        * unfold stripped_tokens in Ew. rewrite !length_map in Ew. exact Ew.
        * repeat constructor.
      + apply find_index_Some in H. destruct H as [(t & Ht & _) _].
        assert (i < length stripped_tokens)
          by (apply nth_error_Some; congruence).
        unfold stripped_tokens in *. rewrite length_map in *. assumption. }
  split; [exact Hi|]. intros E.
  apply (f_equal (@length _)) in E. rewrite length_skipn in E. simpl in E. lia.
Qed.

End Chunks.

(** ** Decimal numerals *)

Lemma lit_inj (a b : string) : lit a = lit b -> a = b.
Proof.
  unfold lit. intros H.
  assert (E : list_ascii_of_string a = list_ascii_of_string b).
  { revert H. generalize (list_ascii_of_string a) (list_ascii_of_string b).
    induction l as [|x l IH]; intros [|y l']; simpl; try discriminate;
      [reflexivity|].
    intros H. inversion H as [[Hx Hl]]. f_equal; [|apply IH; exact Hl].
    rewrite <- (ascii_N_embedding x), <- (ascii_N_embedding y), Hx.
    reflexivity. }
  rewrite <- (string_of_list_ascii_of_string a),
          <- (string_of_list_ascii_of_string b), E.
  reflexivity.
Qed.

Lemma decimal_inj (a b : nat) : decimal a = decimal b -> a = b.
Proof.
  unfold decimal. intros H. apply lit_inj in H.
  assert (E : Some (Nat.to_uint a) = Some (Nat.to_uint b))
    by (rewrite <- !NilEmpty.usu, H; reflexivity).
  inversion E as [E'].
  rewrite <- (Unsigned.of_to a), <- (Unsigned.of_to b), E'. reflexivity.
Qed.

Lemma string_of_uint_digits (d : Decimal.uint) :
  Forall (fun c => is_ascii_digit c = true) (lit (NilEmpty.string_of_uint d)).
Proof.
  induction d; simpl; constructor; try reflexivity; assumption.
Qed.

Lemma decimal_digits (n : nat) :
  Forall (fun c => is_ascii_digit c = true) (decimal n).
Proof. apply string_of_uint_digits. Qed.

Section Titles.

Context {U : UnicodeData}.

Lemma digit_not_alpha (c : char) : is_ascii_digit c = true -> isalpha c = false.
Proof.
  unfold is_ascii_digit, isalpha, is_ascii_alpha, is_ascii_upper, is_ascii_lower.
  intros H. apply andb_true_iff in H. destruct H as [H1 H2].
  apply N.leb_le in H1, H2.
  replace (c <? 128)%N with true by (symmetry; apply N.ltb_lt; lia).
  apply orb_false_iff. split; apply andb_false_iff.
  - left. apply N.leb_gt. lia.
  - left. apply N.leb_gt. lia.
Qed.

Lemma position_marker_no_letter (n : nat) :
  existsb isalpha (lit "#" ++ decimal n) = false.
Proof.
  destruct (existsb isalpha (lit "#" ++ decimal n)) eqn:E; [|reflexivity].
  apply existsb_exists in E. destruct E as (c & Hc & Ec).
  apply in_app_or in Hc. destruct Hc as [Hc | Hc].
  - destruct Hc as [<- | []]. vm_compute in Ec. discriminate.
  - pose proof (decimal_digits n) as Hd. rewrite Forall_forall in Hd.
    rewrite (digit_not_alpha c (Hd c Hc)) in Ec. discriminate.
Qed.

Lemma _parse_subject_chunk_airline_letter (chunk : str) :
  fst (_parse_subject_chunk chunk) = Unknown
  \/ existsb isalpha (fst (_parse_subject_chunk chunk)) = true.
Proof.
  unfold _parse_subject_chunk.
  destruct (nonempty (split_ws chunk)); cbn [negb]; [|left; reflexivity].
  destruct (_find_aircraft_start_index _ _ _) as [i|]; [|left; reflexivity].
  pose proof (@assign_tokens_named _ (firstn i (split_ws chunk))
                (skipn i (split_ws chunk))
                (Forall_firstn i (split_ws_spaceless chunk))) as H.
  destruct (assign_tokens _ _) as [a toks]. cbn [fst] in *.
  destruct H as [H | [H1 H2]]; [left; exact H|]. right. rewrite H2.
  destruct (filter has_alpha (firstn i (split_ws chunk))) as [|t rest] eqn:Ef;
    [congruence|].
  assert (Ht : has_alpha t = true).
  { assert (In t (filter has_alpha (firstn i (split_ws chunk))))
      by (rewrite Ef; left; reflexivity).
    apply filter_In in H. tauto. }
  destruct (join_head (lit " ") t rest) as (x & ->).
  rewrite existsb_app. unfold has_alpha in Ht. rewrite Ht. reflexivity.
Qed.

Lemma _extract_aircraft_entries_airline_letter (clean_title : str) :
  Forall (fun p => fst p = Unknown \/ existsb isalpha (fst p) = true)
         (_extract_aircraft_entries clean_title).
Proof.
  unfold _extract_aircraft_entries.
  destruct (nonempty (_extract_subject_segment clean_title)); cbn [negb].
  2: { constructor; [left; reflexivity | constructor]. }
  assert (Hfb : forall c, Forall (fun p => fst p = Unknown
                                           \/ existsb isalpha (fst p) = true)
                                 [_parse_subject_chunk c]).
  { intros c. constructor; [apply _parse_subject_chunk_airline_letter | constructor]. }
  destruct (nonempty (_split_subject_chunks _)); [|apply Hfb].
  destruct (_chunks_are_valid _); [|apply Hfb].
  apply Forall_forall. intros p Hp. apply in_map_iff in Hp.
  destruct Hp as (c & <- & _). apply _parse_subject_chunk_airline_letter.
Qed.

Lemma process_title_airline_letter (raw_title : str) (i : nat) (e : Entry) :
  nth_error (process_title raw_title) i = Some e ->
  airline e = Unknown \/ existsb isalpha (airline e) = true.
Proof.
  rewrite process_title_unfold. intros H.
  apply build_entries_nth in H. destruct H as (a & b & Hn & ->). cbn [airline].
  apply nth_error_In in Hn.
  pose proof (_extract_aircraft_entries_airline_letter
                (snd (extract_date (title_for_parsing (strip raw_title))))) as Hall.
  rewrite Forall_forall in Hall. apply (Hall (a, b) Hn).
Qed.

(** X16.  Two entries of one headline have the same title only when both are
    secondary entries of the same airline, one that is not "Unknown":
    the first entry's title is no other entry's, and the markers of the
    airlines and of the positions tell all other entries apart. *)
Theorem equal_titles_same_airline
  (raw_title : str) (i j : nat) (ei ej : Entry) :
  i < j ->
  nth_error (process_title raw_title) i = Some ei ->
  nth_error (process_title raw_title) j = Some ej ->
  title ei = title ej ->
  0 < i /\ airline ei = airline ej /\ airline ei <> Unknown.
Proof.
  intros Hij Hi Hj Ht.
  assert (Hj0 : 0 < j) by lia.
  pose proof (process_title_secondary _ Hj0 Hj) as Ej.
  destruct i as [|i].
  - exfalso. destruct (process_title_first raw_title) as (e0 & rest & E & T).
    rewrite E in Hi. simpl in Hi. inversion Hi; subst e0.
    rewrite T, Ej in Ht. apply (f_equal (@length _)) in Ht.
    rewrite !length_app in Ht. simpl in Ht. lia.
  - assert (Hi0 : 0 < S i) by lia.
    pose proof (process_title_secondary _ Hi0 Hi) as Ei.
    rewrite Ei, Ej in Ht.
    apply app_inv_head in Ht. apply app_inv_head in Ht.
    rewrite !app_assoc in Ht. apply app_inv_tail in Ht. apply app_inv_tail in Ht.
    split; [lia|]. unfold variant_suffix in Ht.
    destruct (str_eqb (airline ei) Unknown) eqn:Ui;
      destruct (str_eqb (airline ej) Unknown) eqn:Uj.
    + exfalso. apply app_inv_head in Ht. apply decimal_inj in Ht. lia.
    + exfalso. apply str_eqb_neq in Uj.
      destruct (process_title_airline_letter _ _ Hj) as [H | H]; [congruence|].
      rewrite <- Ht, position_marker_no_letter in H. discriminate.
    + exfalso. apply str_eqb_neq in Ui.
      destruct (process_title_airline_letter _ _ Hi) as [H | H]; [congruence|].
      rewrite Ht, position_marker_no_letter in H. discriminate.
    + split; [exact Ht|]. apply str_eqb_neq. exact Ui.
Qed.

End Titles.

(** ** The response text *)

Lemma contains_iff (p s : str) :
  contains p s = true <-> exists a b, s = a ++ p ++ b.
Proof.
  split.
  - induction s as [|c s IH]; simpl; intros H.
    + rewrite orb_false_r in H. apply startswith_iff in H.
      destruct H as (r & ->). exists [], r. reflexivity.
    + apply orb_true_iff in H. destruct H as [H | H].
      * apply startswith_iff in H. destruct H as (r & ->).
        exists [], r. reflexivity.
      * destruct (IH H) as (a & b & ->). exists (c :: a), b. reflexivity.
  - intros (a & b & ->). apply contains_app.
Qed.

Lemma lower_app (a b : str) : lower (a ++ b) = lower a ++ lower b.
Proof. apply flat_map_app. Qed.

Lemma contains_lower_app (p a t b : str) :
  contains p (lower t) = true -> contains p (lower (a ++ t ++ b)) = true.
Proof.
  intros H. apply contains_iff in H. destruct H as (x & y & E).
  rewrite !lower_app, E. apply contains_iff.
  exists (lower a ++ x), (y ++ lower b). rewrite <- !app_assoc. reflexivity.
Qed.

(** X17.  A text with a block page inside it is a block page: what comes before
    and after the text that makes [_ensure_not_blocked] raise does not
    stop it from raising. *)
Theorem blocked_inside_is_blocked (before response_text after : str) :
  _ensure_not_blocked response_text = Some AvHeraldAccessError ->
  _ensure_not_blocked (before ++ response_text ++ after)
  = Some AvHeraldAccessError.
Proof.
  unfold _ensure_not_blocked.
  destruct (forallb _ block_indicators) eqn:E; [intros _ | discriminate].
  replace (forallb _ block_indicators) with true; [reflexivity|].
  symmetry. rewrite forallb_forall in E |- *.
  intros phrase Hp. apply contains_lower_app, E, Hp.
Qed.

(** ** The preview of a response *)

Lemma splitlines_from_clean (s line : str) :
  Forall (fun c => is_linebreak c = false) line ->
  Forall (Forall (fun c => is_linebreak c = false)) (splitlines_from line s).
Proof.
  revert line.
  assert (W : well_founded (fun a b : str => length a < length b))
    by (apply well_founded_ltof).
  induction s as [s IH] using (well_founded_induction W).
  intros line Hl. destruct s as [|c s']; simpl.
  - destruct (nonempty line); [constructor; [exact Hl | constructor] | constructor].
  - destruct (is_linebreak c) eqn:Ec.
    + constructor; [exact Hl|]. destruct s' as [|d s'']; [constructor|].
      destruct ((c =? 13)%N && (d =? 10)%N).
      * apply IH; [simpl; lia | constructor].
      * apply IH; [simpl; lia | constructor].
    + apply IH; [simpl; lia|]. apply Forall_app. split; [exact Hl|].
      constructor; [exact Ec | constructor].
Qed.

Lemma count_occ_clean (line : str) :
  Forall (fun c => is_linebreak c = false) line -> count_occ N.eq_dec line 10%N = 0.
Proof.
  intros H. apply count_occ_not_In. intros Hin.
  rewrite Forall_forall in H. specialize (H _ Hin). vm_compute in H. discriminate.
Qed.

Lemma count_occ_join (lines : list str) :
  Forall (Forall (fun c => is_linebreak c = false)) lines ->
  count_occ N.eq_dec (join [10%N] lines) 10%N = length lines - 1.
Proof.
  induction lines as [|l rest IH]; intros H; [reflexivity|].
  inversion H as [|? ? Hl Hr]; subst.
  destruct rest as [|l2 rest].
  - simpl. apply count_occ_clean, Hl.
  - change (join [10%N] (l :: l2 :: rest))
      with (l ++ [10%N] ++ join [10%N] (l2 :: rest)).
    pose proof (count_occ_clean Hl) as E1. pose proof (IH Hr) as E2.
    rewrite !count_occ_app.
    change (count_occ N.eq_dec [10%N] 10%N) with 1.
    unfold str, char in *. rewrite E1, E2. cbn [length]. lia.
Qed.

Lemma In_join (sep : str) (parts : list str) (c : char) :
  In c (join sep parts) -> In c sep \/ exists p, In p parts /\ In c p.
Proof.
  induction parts as [|p rest IH]; [intros []|].
  destruct rest as [|p2 rest].
  - simpl. intros H. right. exists p. split; [left; reflexivity | exact H].
  - change (join sep (p :: p2 :: rest)) with (p ++ sep ++ join sep (p2 :: rest)).
    intros H. apply in_app_or in H. destruct H as [H | H].
    + right. exists p. split; [left; reflexivity | exact H].
    + apply in_app_or in H. destruct H as [H | H]; [left; exact H|].
      destruct (IH H) as [H' | (q & Hq & Hc)]; [left; exact H'|].
      right. exists q. split; [right; exact Hq | exact Hc].
Qed.

(** X18.  The preview of a response has at most [max_lines] lines and the line
    of the dots: for a [max_lines] that is not negative it holds at most
    [max_lines] line feeds (one, when [max_lines] is 0), and no other
    line break of the response is left in it. *)
Theorem _format_response_preview_lines (response_text : str) (max_lines : Z) :
  (0 <= max_lines)%Z ->
  let preview := _format_response_preview response_text max_lines in
  count_occ N.eq_dec preview 10%N <= Z.to_nat (Z.max 1 max_lines)
  /\ (forall c, In c preview -> is_linebreak c = true -> c = 10%N).
Proof.
  intros Hm. cbv zeta. unfold _format_response_preview.
  destruct (nonempty response_text); cbn [negb].
  2: { split; [vm_compute; lia|]. intros c Hc Hb.
       assert (F : forallb (fun c => negb (is_linebreak c))
                           (lit "<empty response>") = true)
         by (vm_compute; reflexivity).
       rewrite forallb_forall in F. specialize (F c Hc).
       rewrite Hb in F. discriminate. }
  pose proof (@splitlines_from_clean response_text [] (Forall_nil _)) as Hcl.
  fold (splitlines response_text) in Hcl.
  set (lines := splitlines response_text) in *.
  unfold slice_to. replace (0 <=? max_lines)%Z with true
    by (symmetry; apply Z.leb_le; exact Hm).
  assert (Hf : Forall (Forall (fun c => is_linebreak c = false))
                      (firstn (Z.to_nat max_lines) lines)).
  { apply Forall_forall. intros l Hl. rewrite Forall_forall in Hcl.
    apply Hcl. revert Hl. generalize (Z.to_nat max_lines) as n.
    clear. induction lines as [|x xs IH]; intros [|n]; simpl; try tauto.
    intros [H | H]; [left; exact H | right; apply (IH n H)]. }
  assert (Hin : forall c, In c (join [10%N] (firstn (Z.to_nat max_lines) lines)) ->
                          is_linebreak c = true -> c = 10%N).
  { intros c Hc Hb. apply In_join in Hc. destruct Hc as [[<- | []] | (p & Hp & Hc)];
      [reflexivity|].
    rewrite Forall_forall in Hf. specialize (Hf p Hp).
    rewrite Forall_forall in Hf. rewrite (Hf c Hc) in Hb. discriminate. }
  pose proof (count_occ_join Hf) as Hcount.
  pose proof (length_firstn (Z.to_nat max_lines) lines) as Hlen.
  destruct (max_lines <? Z.of_nat (length lines))%Z eqn:El.
  - split.
    + rewrite !count_occ_app.
      change (count_occ N.eq_dec [10%N] 10%N) with 1.
      change (count_occ N.eq_dec (lit "...") 10%N) with 0.
      unfold str, char in *. rewrite Hcount. lia.
    + intros c Hc Hb. apply in_app_or in Hc. destruct Hc as [Hc | Hc];
        [apply Hin; assumption|].
      apply in_app_or in Hc. destruct Hc as [[<- | []] | Hc]; [reflexivity|].
      assert (F : forallb (fun c => negb (is_linebreak c)) (lit "...") = true)
        by (vm_compute; reflexivity).
      rewrite forallb_forall in F. specialize (F c Hc).
      rewrite Hb in F. discriminate.
  - split; [unfold str, char in *; rewrite Hcount; lia | exact Hin].
Qed.

(** ** The category of an icon *)

Lemma In_before_first (c : char) (s : str) : ~ In c (before_first c s).
Proof.
  induction s as [|x s IH]; simpl; [tauto|].
  destruct (N.eqb x c) eqn:E; simpl; [tauto|].
  apply N.eqb_neq in E. tauto.
Qed.

Lemma before_first_absent (c : char) (s : str) :
  ~ In c s -> before_first c s = s.
Proof.
  induction s as [|x s IH]; simpl; [reflexivity|]. intros H.
  destruct (N.eqb_spec x c) as [-> | _]; [tauto|].
  f_equal. apply IH. tauto.
Qed.

Lemma basename_no_slash (p : str) : ~ In 47%N (basename p).
Proof.
  unfold basename. rewrite <- in_rev. apply In_before_first.
Qed.

Lemma basename_plain (name : str) : ~ In 47%N name -> basename name = name.
Proof.
  intros H. unfold basename.
  rewrite before_first_absent by (rewrite <- in_rev; exact H).
  apply rev_involutive.
Qed.

Lemma basename_app (dir name : str) :
  ~ In 47%N name -> basename (dir ++ 47%N :: name) = name.
Proof.
  intros H. unfold basename.
  rewrite rev_app_distr. cbn [rev]. rewrite <- app_assoc. cbn [app].
  rewrite before_first_app by (rewrite <- in_rev; exact H).
  apply rev_involutive.
Qed.

Lemma lower_char_cases (c : char) :
  lower_char c = [105; 775]%N
  \/ exists d, lower_char c = [d] /\ (c = 47%N -> d = 47%N).
Proof.
  unfold lower_char, is_ascii_upper.
  destruct ((65 <=? c) && (c <=? 90))%N eqn:Eu.
  - right. exists (c + 32)%N. split; [reflexivity|].
    intros ->. vm_compute in Eu. discriminate.
  - destruct (c =? 304)%N; [left; reflexivity|].
    destruct (c =? 8490)%N eqn:Ek.
    + right. exists 107%N. split; [reflexivity|].
      intros ->. vm_compute in Ek. discriminate.
    + right. exists c. split; [reflexivity | tauto].
Qed.

Lemma lower_plain (s : str) :
  ~ In 775%N (lower s) -> ~ In 47%N (lower s) ->
  length s = length (lower s) /\ ~ In 47%N s.
Proof.
  induction s as [|c s IH]; [simpl; tauto|].
  change (lower (c :: s)) with (lower_char c ++ lower s).
  destruct (lower_char_cases c) as [-> | (d & -> & Hd)].
  - intros H. exfalso. apply H. simpl. tauto.
  - cbn [app length]. intros H1 H2.
    destruct IH as [IH1 IH2];
      [intros H; apply H1; right; exact H
      |intros H; apply H2; right; exact H|].
    split; [rewrite IH1; reflexivity|].
    intros [-> | H]; [apply H2; left; apply Hd; reflexivity | tauto].
Qed.

Lemma lower_is_gif (ext : str) :
  lower ext = lit ".gif" -> length ext = 4 /\ ~ In 47%N ext.
Proof.
  intros H.
  destruct (lower_plain ext) as [H1 H2].
  - rewrite H. vm_compute. intuition discriminate.
  - rewrite H. vm_compute. intuition discriminate.
  - rewrite H in H1. split; [exact H1 | exact H2].
Qed.

(** X19.  The category of an icon is the name of its file: what follows the
    last slash of the address, without an ending ".gif" in whatever
    letter case. *)
Theorem category_of_icon_gif (name ext : str) :
  ~ In 47%N name ->
  lower ext = lit ".gif" ->
  category_of_icon (name ++ ext) = name
  /\ forall dir, category_of_icon (dir ++ lit "/" ++ name ++ ext) = name.
Proof.
  intros Hn He. destruct (lower_is_gif ext He) as [Hl Hs].
  assert (Hf : ~ In 47%N (name ++ ext)).
  { intros H. apply in_app_or in H. tauto. }
  assert (Hc : (if endswith (lit ".gif") (lower (name ++ ext))
                then firstn (length (name ++ ext) - 4) (name ++ ext)
                else name ++ ext) = name).
  { rewrite lower_app, He. unfold endswith.
    rewrite rev_app_distr, startswith_app.
    rewrite length_app, Hl.
    replace (length name + 4 - 4) with (length name + 0) by lia.
    rewrite firstn_app_2. cbn [firstn]. apply app_nil_r. }
  split.
  - unfold category_of_icon. cbv zeta. rewrite basename_plain by exact Hf.
    exact Hc.
  - intros dir. unfold category_of_icon. cbv zeta.
    change (lit "/" ++ name ++ ext) with (47%N :: (name ++ ext)).
    rewrite basename_app by exact Hf. exact Hc.
Qed.

(** X20.  The category of an icon holds no slash, whatever the address. *)
Theorem category_of_icon_no_slash (src : str) :
  ~ In 47%N (category_of_icon src).
Proof.
  unfold category_of_icon. cbv zeta.
  destruct (endswith _ _); [|apply basename_no_slash].
  intros H. apply In_firstn in H. revert H. apply basename_no_slash.
Qed.

(** ** Headlines and the table *)

Section HeadlineRows.

Context {U : UnicodeData}.

Lemma headline_incidents_category (category absolute_url headline_text : str) :
  forall x, In x (headline_incidents category absolute_url headline_text) ->
            Store.category x = category.
Proof.
  intros x Hx. unfold headline_incidents in Hx. apply in_map_iff in Hx.
  destruct Hx as (e & <- & _). reflexivity.
Qed.

(** X21.  No row is stored for a headline of the category "news", in whatever
    letter case: the table is left as it was and every entry of the
    headline is counted as skipped. *)
Theorem news_headline_stores_nothing
  (table : Store.Table) (category absolute_url headline_text : str) :
  lower category = lit "news" ->
  Store.insert_incidents table
    (headline_incidents category absolute_url headline_text)
  = (table, (0, length (process_title (strip headline_text)))).
Proof.
  intros Hn. unfold Store.insert_incidents.
  rewrite StoreFacts.insert_incidents_from_all_skipped.
  - unfold headline_incidents. rewrite length_map. reflexivity.
  - intros x Hx. left. unfold Store.is_news.
    rewrite (headline_incidents_category _ _ _ x Hx), Hn.
    apply str_eqb_eq. reflexivity.
Qed.

(** X22.  After the incidents of a headline of another category than "news"
    are stored, the table holds a row whose title is the headline, taken
    without the white space around it. *)
Theorem headline_title_is_stored
  (table : Store.Table) (category absolute_url headline_text : str) :
  lower category <> lit "news" ->
  In (strip headline_text)
     (Store.titles
        (fst (Store.insert_incidents table
                (headline_incidents category absolute_url headline_text)))).
Proof.
  intros Hn. unfold Store.insert_incidents.
  destruct (StoreFacts.insert_incidents_from_spec
              (headline_incidents category absolute_url headline_text)
              table 0 0) as (added & -> & _ & _ & _ & Hc).
  cbn [fst].
  destruct (process_title_first (strip headline_text)) as (e & rest & E & T).
  rewrite strip_idem in T. rewrite <- T.
  set (x := {| Store.category := category; Store.title := title e;
               Store.airline := airline e; Store.aircraft := aircraft e;
               Store.timestamp := timestamp e; Store.url := absolute_url |}).
  change (title e) with (Store.title x). apply Hc.
  - unfold headline_incidents. rewrite E. left. reflexivity.
  - unfold Store.is_news. apply str_eqb_neq. exact Hn.
Qed.

End HeadlineRows.

(** * Examples

    The headlines below are ASCII, so the Unicode tables are never
    consulted: the facts of the first section hold for every table.  The
    closed lemmas after it are stated with the table [ascii_only]. *)

Section AnyTable.

Context {U : UnicodeData}.

(** The headlines of section 8 of the specification. *)
Example process_title_examples :
  map (fun e => (timestamp e, fields e))
      (process_title (lit "Boeing 737 at Berlin on Mar 31st 2025, engine failure"))
  = [(Some 1743379200%Z, (Unknown, lit "Boeing 737"))]
  /\ map fields (process_title (lit "Ryanair B738 at Dublin on Mar 31st 2025, tail strike"))
     = [(lit "Ryanair", lit "B738")]
  /\ map fields (process_title two_aircraft)
     = [(lit "Canada", lit "BCS3"); (lit "United", lit "B38M")]
  /\ map fields
       (process_title
          (lit "THY A332 enroute on Aug 31st 2025, climbed without clearance, loss of separation"))
     = [(lit "THY", lit "A332")]
  /\ map (fun e => (timestamp e, aircraft e))
         (process_title (lit "Piper PA-28 at London, gear up landing"))
     = [(None, lit "Piper PA-28")]
  /\ map (fun e => (timestamp e, fields e)) (process_title (lit "Unknown incident"))
     = [(None, (Unknown, lit "Unknown incident"))].
Proof. vm_compute. repeat split. Qed.

(** A secondary entry without airline is marked by its position. *)
Example positional_marker :
  map title (process_title (lit "Boeing 737 and Airbus A320 at Rome"))
  = [lit "Boeing 737 and Airbus A320 at Rome";
     SECONDARY_TITLE_PREFIX ++ lit " #2] Boeing 737 and Airbus A320 at Rome"].
Proof. vm_compute; reflexivity. Qed.

(** A subject that is empty while the working text is not. *)
Example at_berlin :
  let raw := lit "at Berlin" in
  snd (extract_date (title_for_parsing (strip raw))) = raw
  /\ _extract_subject_segment raw = []
  /\ map fields (process_title raw) = [(Unknown, Unknown)]
  /\ _parse_subject_chunk raw = (Unknown, lit "at Berlin").
Proof. vm_compute. repeat split. Qed.

(** White space around a headline. *)
Example foo_after_a_space :
  map title (process_title (lit " Foo")) = [lit "Foo"]
  /\ str_eqb (lit "Foo") (lit " Foo") = false.
Proof. vm_compute. split; reflexivity. Qed.

(** A date phrase that is no date. *)
Example february_30th :
  let raw := lit "Foo on Feb 30th 2025" in
  DATE_REGEX_search 0 (title_for_parsing (strip raw))
  = Some (7, lit "Feb 30th 2025")
  /\ date_to_timestamp (lit "Feb 30th 2025") = None
  /\ snd (extract_date (title_for_parsing (strip raw))) = lit "Foo"
  /\ map (fun e => (timestamp e, fields e)) (process_title raw)
     = [(None, (Unknown, lit "Foo"))]
  /\ _parse_subject_chunk raw = (lit "Foo on Feb", lit "30th 2025").
Proof. vm_compute. repeat split. Qed.

(** The same date text twice, the second time after " on ". *)
Example date_twice :
  let text := lit "A320 Mar 3rd 2025 on Mar 3rd 2025" in
  title_for_parsing (strip text) = text
  /\ DATE_REGEX_search 0 text = Some (5, lit "Mar 3rd 2025")
  /\ firstn 5 text = lit "A320 "
  /\ snd (extract_date text) = lit "A320 Mar 3rd 2025".
Proof. vm_compute. repeat split. Qed.

(** Both occurrences of " on " and the date go. *)
Example both_occurrences_removed :
  snd (extract_date (lit "B738 at Rome on Mar 3rd 2025 and again on Mar 3rd 2025"))
  = lit "B738 at Rome and again".
Proof. vm_compute; reflexivity. Qed.

(** The date text stays in the working text, and out of the subject, when
    it follows the location without " on ". *)
Example date_after_location :
  let text := lit "B738 at Rome Mar 3rd 2025" in
  snd (extract_date text) = text
  /\ _extract_subject_segment text = lit "B738".
Proof. vm_compute. split; reflexivity. Qed.

Example parse_chunk_examples :
  _parse_subject_chunk (lit "Boeing B738") = (Unknown, lit "Boeing B738")
  /\ _parse_subject_chunk (lit "123 B738") = (Unknown, lit "123 B738")
  /\ _parse_subject_chunk (lit "Unknown incident") = (Unknown, lit "Unknown incident")
  /\ _parse_subject_chunk (lit "   ") = (Unknown, Unknown)
  /\ _parse_subject_chunk (lit "Air 123 Canada A320 neo landing")
     = (lit "Air Canada", lit "A320 neo").
Proof. vm_compute. repeat split. Qed.

Example trim_examples :
  _trim_aircraft_tokens (map lit ["A320"; "neo"; "landing"; "gear"]%string)
  = map lit ["A320"; "neo"]%string
  /\ _trim_aircraft_tokens (map lit ["on"; "Piper"; "on"; "fire"]%string)
     = map lit ["on"; "Piper"]%string
  /\ _trim_aircraft_tokens (map lit ["Boeing"; "737"]%string)
     = map lit ["Boeing"; "737"]%string.
Proof. vm_compute. repeat split. Qed.

Example detector_examples :
  let detect s :=
    let raw := split_ws (lit s) in
    let stripped := map _normalize_aircraft_token raw in
    _find_aircraft_start_index raw stripped (map lower stripped) in
  detect "Boeing Ryanair B738"%string = Some 2
  /\ detect "Foo Britten Norman"%string = Some 1
  /\ detect "Foo Boeing 737"%string = Some 1
  /\ detect "Unknown incident"%string = None.
Proof. vm_compute. repeat split. Qed.

End AnyTable.

#[local] Existing Instance ascii_only.

(** C2, counterexample.  The working text "at Berlin" has an empty
    subject; the one entry is ("Unknown", "Unknown"), whereas the working
    text parsed as a chunk would give the aircraft "at Berlin". *)
Lemma empty_subject_is_not_parsed :
  let raw := lit "at Berlin" in
  snd (extract_date (title_for_parsing (strip raw))) = raw
  /\ _extract_subject_segment raw = []
  /\ map fields (process_title raw) = [(Unknown, Unknown)]
  /\ _parse_subject_chunk raw = (Unknown, lit "at Berlin").
Proof. exact at_berlin. Qed.

(** C2, the first case at work: two chunks, two entries. *)
Lemma process_title_entries_by_chunk_witness :
  map (fun e => (airline e, aircraft e)) (process_title two_aircraft)
  = map _parse_subject_chunk
      (_split_subject_chunks
         (_extract_subject_segment
            (snd (extract_date (title_for_parsing (strip two_aircraft)))))).
Proof.
  apply (proj1 (process_title_entries_by_chunk two_aircraft)).
  - vm_compute; discriminate.
  - vm_compute; repeat constructor.
  - vm_compute. repeat (constructor; [discriminate|]). constructor.
Defined.

(** C3, counterexample.  The title of the entry of " Foo" is "Foo": the
    white space around the headline is not kept. *)
Lemma surrounding_whitespace_is_dropped :
  map title (process_title (lit " Foo")) = [lit "Foo"]
  /\ str_eqb (lit "Foo") (lit " Foo") = false.
Proof. exact foo_after_a_space. Qed.

(** C3 at work: the second entry of the two-aircraft headline. *)
Lemma process_title_keeps_stripped_title_witness :
  let e := nth 1 (process_title two_aircraft) blank in
  title e
  = SECONDARY_TITLE_PREFIX ++ lit " "
    ++ (if str_eqb (airline e) Unknown then lit "#" ++ decimal (1 + 1) else airline e)
    ++ lit "] " ++ strip two_aircraft
  /\ contains (strip two_aircraft) (title e) = true.
Proof.
  apply (proj2 (process_title_keeps_stripped_title two_aircraft) 1).
  - lia.
  - vm_compute; reflexivity.
Defined.

(** C9 at work: the second entry of the two-aircraft headline. *)
Lemma secondary_titles_carry_prefix_witness :
  let e := nth 1 (process_title two_aircraft) blank in
  title e
  = [91; 26631; 35760; 32]%N
    ++ (if str_eqb (airline e) Unknown then lit "#" ++ decimal (1 + 1) else airline e)
    ++ [93; 32]%N ++ strip two_aircraft
  /\ startswith (SECONDARY_TITLE_PREFIX ++ lit " ") (title e) = true.
Proof.
  apply (proj1 (proj2 (secondary_titles_carry_prefix two_aircraft)) 1).
  - lia.
  - vm_compute; reflexivity.
Defined.

(** C4, counterexample.  "Feb 30th 2025" matches the date pattern and is
    no date; the timestamp is missing and " on Feb 30th 2025" is removed
    all the same: what is parsed is "Foo", not the whole text, whose
    parse is shown last. *)
Lemma unparsed_date_removed_all_the_same :
  let raw := lit "Foo on Feb 30th 2025" in
  DATE_REGEX_search 0 (title_for_parsing (strip raw))
  = Some (7, lit "Feb 30th 2025")
  /\ date_to_timestamp (lit "Feb 30th 2025") = None
  /\ snd (extract_date (title_for_parsing (strip raw))) = lit "Foo"
  /\ map (fun e => (timestamp e, fields e)) (process_title raw)
     = [(None, (Unknown, lit "Foo"))]
  /\ _parse_subject_chunk raw = (lit "Foo on Feb", lit "30th 2025").
Proof. exact february_30th. Qed.

(** C4 at work on the same headline. *)
Lemma unparsed_date_is_still_removed_witness :
  let raw := lit "Foo on Feb 30th 2025" in
  let date_str := lit "Feb 30th 2025" in
  DATE_REGEX_search 0 (title_for_parsing (strip raw)) = Some (7, date_str)
  /\ date_to_timestamp date_str = None
  /\ Forall (fun e => timestamp e = None) (process_title raw)
  /\ process_title raw
     = build_entries (strip raw) None 0
         (_extract_aircraft_entries
            (strip (remove_all (lit " on " ++ date_str)
                               (title_for_parsing (strip raw))))).
Proof.
  intros raw date_str.
  assert (H1 : DATE_REGEX_search 0 (title_for_parsing (strip raw))
               = Some (7, date_str)) by (vm_compute; reflexivity).
  assert (H2 : date_to_timestamp date_str = None) by (vm_compute; reflexivity).
  split; [exact H1|]. split; [exact H2|].
  exact (unparsed_date_is_still_removed raw H1 H2).
Defined.

(** C10, counterexample.  The date phrase found stands at index 5, after
    "A320 " and not after " on "; the same date text comes again after
    " on ", and that occurrence is removed. *)
Lemma later_occurrence_is_removed :
  let text := lit "A320 Mar 3rd 2025 on Mar 3rd 2025" in
  title_for_parsing (strip text) = text
  /\ DATE_REGEX_search 0 text = Some (5, lit "Mar 3rd 2025")
  /\ firstn 5 text = lit "A320 "
  /\ snd (extract_date text) = lit "A320 Mar 3rd 2025".
Proof. exact date_twice. Qed.

(** C10 at work: a date text that stands twice after " on ". *)
Lemma date_segment_removed_everywhere_witness :
  let raw := lit "B738 at Rome on Mar 3rd 2025 and again on Mar 3rd 2025" in
  let text := title_for_parsing (strip raw) in
  let date_segment := lit " on Mar 3rd 2025" in
  DATE_REGEX_search 0 text = Some (16, lit "Mar 3rd 2025")
  /\ snd (extract_date text) = strip (remove_all date_segment text)
  /\ removed_all date_segment text (remove_all date_segment text)
  /\ (contains date_segment text = false -> snd (extract_date text) = text).
Proof.
  intros raw text date_segment.
  assert (H : DATE_REGEX_search 0 text = Some (16, lit "Mar 3rd 2025"))
    by (vm_compute; reflexivity).
  split; [exact H|].
  exact (date_segment_removed_everywhere raw H).
Defined.

(** C7 at work: "Boeing" before the catalog entry "B738" is a
    manufacturer, and goes back in front of the aircraft tokens. *)
Lemma _parse_subject_chunk_spec_witness :
  let raw_tokens := split_ws (lit "Boeing B738") in
  _parse_subject_chunk (lit "Boeing B738")
  = (Unknown, aircraft_of_tokens (firstn 1 raw_tokens ++ skipn 1 raw_tokens)).
Proof.
  apply (proj1 (proj2 (proj2 (_parse_subject_chunk_spec (lit "Boeing B738")))) 1).
  - vm_compute; reflexivity.
  - constructor; [|constructor].
    apply mem_In. vm_compute; reflexivity.
Defined.

(** C8 at work: no catalog entry starts "BCS3 enroute x", and the
    stopword "enroute" stands at index 1. *)
Lemma _trim_aircraft_tokens_spec_witness :
  let tokens := [lit "BCS3"; lit "enroute"; lit "x"] in
  tokens <> [] /\ _trim_aircraft_tokens tokens = firstn 1 tokens.
Proof.
  intros tokens.
  assert (Hne : tokens <> []) by discriminate.
  split; [exact Hne|].
  apply (proj1 (proj2 (_trim_aircraft_tokens_spec Hne))).
  - apply _match_known_aircraft_tokens_None. vm_compute; reflexivity.
  - split; [lia|]. split.
    + exists (lit "enroute"). split; [reflexivity|].
      apply mem_In. vm_compute; reflexivity.
    + intros j t Hj. lia.
Defined.

(** X9 at work: blanks before a headline, a blank and a line feed after
    it. *)
Lemma process_title_ignores_padding_witness :
  process_title (lit "  " ++ lit "Ryanair B738 at Dublin" ++ [32; 10]%N)
  = process_title (lit "Ryanair B738 at Dublin").
Proof.
  apply process_title_ignores_padding; vm_compute; reflexivity.
Defined.

(** X10 at work: a second date, after the comma, is not looked at. *)
Lemma process_title_ignores_clause_witness :
  let subject := lit "Ryanair B738 at Dublin on Mar 31st 2025" in
  map facts (process_title (subject ++ lit "," ++ lit " tail strike on Apr 1st 2025"))
  = map facts (process_title subject).
Proof.
  intros subject. apply process_title_ignores_clause.
  intros H. apply existsb_eqb_In in H. vm_compute in H. discriminate.
Defined.

(** X11 at work: the two-aircraft headline. *)
Lemma several_entries_have_aircraft_witness :
  2 <= length (process_title two_aircraft)
  /\ Forall (fun e => aircraft e <> Unknown) (process_title two_aircraft).
Proof.
  assert (H : 2 <= length (process_title two_aircraft))
    by (vm_compute; apply le_n).
  split; [exact H|]. exact (several_entries_have_aircraft two_aircraft H).
Defined.

(** X15 at work: the boundary of "Ryanair B738" is the index 1. *)
Lemma aircraft_start_in_range_witness :
  let raw_tokens := [lit "Ryanair"; lit "B738"] in
  let stripped_tokens := map _normalize_aircraft_token raw_tokens in
  _find_aircraft_start_index raw_tokens stripped_tokens
                             (map lower stripped_tokens) = Some 1
  /\ 1 < length raw_tokens /\ skipn 1 raw_tokens <> [].
Proof.
  intros raw_tokens stripped_tokens.
  assert (H : _find_aircraft_start_index raw_tokens stripped_tokens
                (map lower stripped_tokens) = Some 1)
    by (vm_compute; reflexivity).
  split; [exact H|]. exact (aircraft_start_in_range raw_tokens H).
Defined.

(** X16 at work: the second and the third entry of a headline that names
    one airline three times have one title. *)
Lemma equal_titles_same_airline_witness :
  let entries :=
    process_title (lit "Ryanair B738 and Ryanair A320 and Ryanair A319") in
  let e1 := nth 1 entries blank in
  let e2 := nth 2 entries blank in
  length entries = 3
  /\ title e1 = title e2
  /\ 0 < 1 /\ airline e1 = airline e2 /\ airline e1 <> Unknown.
Proof.
  intros entries e1 e2.
  assert (Ht : title e1 = title e2) by (vm_compute; reflexivity).
  split; [vm_compute; reflexivity|]. split; [exact Ht|].
  apply (@equal_titles_same_airline _
           (lit "Ryanair B738 and Ryanair A320 and Ryanair A319") 1 2 e1 e2).
  - apply le_n.
  - vm_compute; reflexivity.
  - vm_compute; reflexivity.
  - exact Ht.
Defined.

(** X17 at work: the block page of the tests, inside a paragraph. *)
Lemma blocked_inside_is_blocked_witness :
  let page :=
    lit "Your IP address 1.2.3.4 has been used for unauthorized accesses and is therefore blocked!" in
  _ensure_not_blocked (lit "<html><body><p>" ++ page ++ lit "</p></body></html>")
  = Some AvHeraldAccessError.
Proof.
  intros page. apply blocked_inside_is_blocked. vm_compute; reflexivity.
Defined.

(** X18 at work: three lines, of which two are shown. *)
Lemma _format_response_preview_lines_witness :
  let preview :=
    _format_response_preview
      (lit "a" ++ [13; 10]%N ++ lit "b" ++ [8232]%N ++ lit "c") 2 in
  count_occ N.eq_dec preview 10%N <= Z.to_nat (Z.max 1 2)
  /\ (forall c, In c preview -> is_linebreak c = true -> c = 10%N).
Proof.
  apply _format_response_preview_lines. discriminate.
Defined.

(** X19 at work: an icon in a directory, its extension in capitals. *)
Lemma category_of_icon_gif_witness :
  category_of_icon (lit "/images" ++ lit "/" ++ lit "crash" ++ lit ".GIF")
  = lit "crash".
Proof.
  assert (Hn : ~ In 47%N (lit "crash")).
  { intros H. apply existsb_eqb_In in H. vm_compute in H. discriminate. }
  assert (He : lower (lit ".GIF") = lit ".gif") by (vm_compute; reflexivity).
  exact (proj2 (@category_of_icon_gif (lit "crash") (lit ".GIF") Hn He)
               (lit "/images")).
Defined.

(** X21 at work: a headline under the icon "News". *)
Lemma news_headline_stores_nothing_witness :
  let headline := lit "Ryanair B738 at Dublin on Mar 31st 2025, tail strike" in
  Store.insert_incidents []
    (headline_incidents (lit "News") (lit "/avherald/h?article=1") headline)
  = ([], (0, length (process_title (strip headline)))).
Proof.
  intros headline. apply news_headline_stores_nothing. vm_compute; reflexivity.
Defined.

(** X22 at work: the same headline under the icon "incident". *)
Lemma headline_title_is_stored_witness :
  let headline := lit " Ryanair B738 at Dublin on Mar 31st 2025, tail strike " in
  In (strip headline)
     (Store.titles
        (fst (Store.insert_incidents []
                (headline_incidents (lit "incident")
                                    (lit "/avherald/h?article=1") headline)))).
Proof.
  intros headline. apply headline_title_is_stored.
  intros H. vm_compute in H. discriminate.
Defined.
